(** * Plugo CSS build script (src/scripts/build.js): a shallow embedding

    JavaScript strings are modelled as lists of UTF-16 code units ([jstr]);
    JavaScript numbers as IEEE-754 binary64 values, using the executable
    specification [spec_float] of the Standard Library (precision 53,
    maximal exponent 1024).  The ECMAScript conversions the script relies on
    (Number::toString, Number.prototype.toFixed, parseFloat, parseInt,
    Math.round, Number.isInteger) are written out after the ECMAScript
    specification, and the regular-expression replacements of the script are
    written as left-to-right scanners with the leftmost, greedy semantics of
    [String.prototype.replace] with a global pattern. *)

From Stdlib Require Import ZArith NArith List String Ascii Bool Lia.
From Stdlib Require Import Floats.SpecFloat.
Import ListNotations.
Open Scope list_scope.

(** ** Strings *)

Definition jstr := list N.

(** Source literals are written in the JavaScript escape syntax: a backslash
    followed by [n] is a line feed, two backslashes are one backslash. *)
Fixpoint unesc (l : list ascii) : jstr :=
  match l with
  | [] => []
  | c :: r =>
      if Ascii.eqb c "\"%char then
        match r with
        | d :: r' =>
            if Ascii.eqb d "n"%char then 10%N :: unesc r'
            else if Ascii.eqb d "\"%char then 92%N :: unesc r'
            else N_of_ascii c :: unesc r
        | [] => [N_of_ascii c]
        end
      else N_of_ascii c :: unesc r
  end.

Definition u (s : string) : jstr := unesc (list_ascii_of_string s).
Arguments u s%_string.

Fixpoint jstr_eqb (a b : jstr) : bool :=
  match a, b with
  | [], [] => true
  | x :: a', y :: b' => N.eqb x y && jstr_eqb a' b'
  | _, _ => false
  end.

(** [prefixb p s]: [s] starts with [p]. *)
Fixpoint prefixb (p s : jstr) : bool :=
  match p, s with
  | [], _ => true
  | x :: p', y :: s' => N.eqb x y && prefixb p' s'
  | _, [] => false
  end.

(** Array.prototype.includes on an array of strings. *)
Definition includes (l : list jstr) (x : jstr) : bool := existsb (jstr_eqb x) l.

(** JavaScript whitespace ([\s] in a pattern, the characters [trim] removes). *)
Definition is_ws (c : N) : bool :=
  match c with
  | 9 | 10 | 11 | 12 | 13 | 32 | 160 | 5760 | 8232 | 8233 | 8239 | 8287
  | 12288 | 65279 => true
  | _ => (8192 <=? c) && (c <=? 8202)
  end%N.

Definition is_digit (c : N) : bool := (48 <=? c)%N && (c <=? 57)%N.

Definition ch (c : ascii) : N := N_of_ascii c.

(** Decimal digits of a non-negative integer. *)
Fixpoint dec_digits_aux (fuel : nat) (z : Z) (acc : jstr) : jstr :=
  match fuel with
  | O => acc
  | S f =>
      let acc' := (48 + Z.to_N (z mod 10))%N :: acc in
      if z <? 10 then acc' else dec_digits_aux f (z / 10) acc'
  end%Z.

Definition dec_digits (z : Z) : jstr :=
  dec_digits_aux (S (Z.to_nat (Z.log2 z))) z [].

Definition zeros (n : nat) : jstr := repeat 48%N n.

(** ** Numbers *)

Definition num : Type := spec_float.

Definition prec : Z := 53.
Definition emax : Z := 1024.

Definition fadd := SFadd prec emax.
Definition fsub := SFsub prec emax.
Definition fmul := SFmul prec emax.
Definition fdiv := SFdiv prec emax.
Definition fleb := SFleb.
Definition fopp := SFopp.

Definition num_eqb (x y : num) : bool :=
  match x, y with
  | S754_nan, S754_nan => true
  | S754_zero a, S754_zero b => Bool.eqb a b
  | S754_infinity a, S754_infinity b => Bool.eqb a b
  | S754_finite a m e, S754_finite b m' e' =>
      Bool.eqb a b && Pos.eqb m m' && Z.eqb e e'
  | _, _ => false
  end.

(** The Number value of the mathematical value [(-1)^neg * n / d],
    rounded to nearest, ties to even. *)
Definition of_ratio (neg : bool) (n d : positive) : num :=
  let '(q, e, l) := SFdiv_core_binary prec emax (Zpos n) 0 (Zpos d) 0 in
  binary_round_aux prec emax neg q e l.

(** The Number value of [(-1)^neg * s * 10^p] ([s >= 0]). *)
Definition of_decimal (neg : bool) (s p : Z) : num :=
  match s with
  | Zpos sp =>
      if (0 <=? p)%Z then
        match (s * 10 ^ p)%Z with
        | Zpos m => binary_round prec emax neg m 0
        | _ => S754_zero neg
        end
      else of_ratio neg sp (Z.to_pos (10 ^ (- p)))
  | _ => S754_zero neg
  end.

Definition of_Z (z : Z) : num := binary_normalize prec emax z 0 false.

(** Exact value of a finite non-zero number: sign, numerator, denominator. *)
Definition ratio_of (m : positive) (e : Z) : Z * Z :=
  if (0 <=? e)%Z then (Zpos m * 2 ^ e, 1)%Z else (Zpos m, 2 ^ (- e))%Z.

(** Math.round: the integer closest to [x], ties towards +infinity,
    that is [floor (x + 1/2)]. Defined on finite non-zero values. *)
Definition round_finite (s : bool) (m : positive) (e : Z) : Z :=
  let '(n, d) := ratio_of m e in
  let n' := if s then (- n)%Z else n in
  ((2 * n' + d) / (2 * d))%Z.

(** Number.isInteger *)
Definition is_integer (x : num) : bool :=
  match x with
  | S754_zero _ => true
  | S754_finite _ m e => let '(n, d) := ratio_of m e in (n mod d =? 0)%Z
  | _ => false
  end.

(** Decimal exponent [n] of [x = a / b > 0]: [10^(n-1) <= x < 10^n]. *)
Fixpoint small_exp (fuel : nat) (j a b : Z) : Z :=
  match fuel with
  | O => 1 - j
  | S f => if (b <=? a * 10 ^ j)%Z then (1 - j)%Z else small_exp f (j + 1) a b
  end%Z.

Definition dec_exp (a b : Z) : Z :=
  if (b <=? a)%Z then Z.of_nat (List.length (dec_digits (a / b)))
  else small_exp 400 1 a b.

(** Number::toString, step 5: the shortest digit string [s] (of [k] digits,
    with decimal exponent [n]) whose Number value is [x]; among two candidates
    the closer one, and on a tie the even one. *)
Fixpoint shortest (fuel : nat) (k : Z) (x : num) (a b n : Z) : Z * Z * Z :=
  match fuel with
  | O => (0%Z, k, n)
  | S f =>
      let '(a', b') :=
        if (0 <=? k - n)%Z then (a * 10 ^ (k - n), b)%Z
        else (a, b * 10 ^ (n - k))%Z in
      let lo := (a' / b')%Z in
      let r := (a' mod b')%Z in
      let ok s := num_eqb (of_decimal false s (n - k)) x in
      let pick :=
        if (r =? 0)%Z then (if ok lo then Some lo else None)
        else
          match ok lo, ok (lo + 1)%Z with
          | true, true =>
              match Z.compare (2 * r) b' with
              | Lt => Some lo
              | Gt => Some (lo + 1)%Z
              | Eq => if Z.even lo then Some lo else Some (lo + 1)%Z
              end
          | true, false => Some lo
          | false, true => Some (lo + 1)%Z
          | false, false => None
          end in
      match pick with
      | Some s =>
          if (s =? 10 ^ k)%Z then (1, 1, n + 1)%Z else (s, k, n)
      | None => shortest f (k + 1) x a b n
      end
  end.

Definition exp_part (e : Z) : jstr :=
  u "e" ++ (if (e <? 0)%Z then u "-" else u "+") ++ dec_digits (Z.abs e).

(** Number::toString(x) with radix 10, for a positive finite [x]. *)
Definition to_string_pos (m : positive) (e : Z) : jstr :=
  let x := S754_finite false m e in
  let '(a, b) := ratio_of m e in
  let '(s, k, n) := shortest 20 1 x a b (dec_exp a b) in
  let ds := dec_digits s in
  if (k <=? n)%Z && (n <=? 21)%Z then ds ++ zeros (Z.to_nat (n - k))
  else if (0 <? n)%Z && (n <=? 21)%Z then
    firstn (Z.to_nat n) ds ++ u "." ++ skipn (Z.to_nat n) ds
  else if (-6 <? n)%Z && (n <=? 0)%Z then
    u "0." ++ zeros (Z.to_nat (- n)) ++ ds
  else if (k =? 1)%Z then ds ++ exp_part (n - 1)
  else firstn 1 ds ++ u "." ++ skipn 1 ds ++ exp_part (n - 1).

Definition to_string (x : num) : jstr :=
  match x with
  | S754_nan => u "NaN"
  | S754_zero _ => u "0"
  | S754_infinity false => u "Infinity"
  | S754_infinity true => u "-Infinity"
  | S754_finite false m e => to_string_pos m e
  | S754_finite true m e => u "-" ++ to_string_pos m e
  end.

(** Number.prototype.toFixed(f) for a non-negative finite value [a / b]. *)
Definition to_fixed_pos (f : nat) (a b : Z) : jstr :=
  let n := ((2 * a * 10 ^ Z.of_nat f + b) / (2 * b))%Z in
  let m := dec_digits n in
  match f with
  | O => m
  | S _ =>
      let m' := if Nat.leb (List.length m) f then zeros (S f - List.length m) ++ m else m in
      let k := List.length m' in
      firstn (k - f) m' ++ u "." ++ skipn (k - f) m'
  end.

Definition to_fixed (x : num) (f : nat) : jstr :=
  match x with
  | S754_nan => u "NaN"
  | S754_zero _ => to_fixed_pos f 0 1
  | S754_infinity false => u "Infinity"
  | S754_infinity true => u "-Infinity"
  | S754_finite s m e =>
      let '(a, b) := ratio_of m e in
      let body :=
        if (10 ^ 21 * b <=? a)%Z then to_string_pos m e else to_fixed_pos f a b in
      if s then u "-" ++ body else body
  end.

Fixpoint take_while (p : N -> bool) (l : jstr) : jstr :=
  match l with
  | c :: r => if p c then c :: take_while p r else []
  | [] => []
  end.

Fixpoint drop_while (p : N -> bool) (l : jstr) : jstr :=
  match l with
  | c :: r => if p c then drop_while p r else l
  | [] => []
  end.

Definition digits_value (base : Z) (val : N -> Z) (ds : jstr) : Z :=
  fold_left (fun acc c => acc * base + val c)%Z ds 0%Z.

Definition dec_val (c : N) : Z := Z.of_N (c - 48).

(** parseFloat: the longest prefix (after leading whitespace) that is a
    StrDecimalLiteral, rounded to the nearest Number; NaN when there is none. *)
Definition parse_float (s0 : jstr) : num :=
  let s1 := drop_while is_ws s0 in
  let '(neg, s) :=
    match s1 with
    | 43%N :: r => (false, r)
    | 45%N :: r => (true, r)
    | _ => (false, s1)
    end in
  if prefixb (u "Infinity") s then S754_infinity neg
  else
    let ds1 := take_while is_digit s in
    let rest := drop_while is_digit s in
    let '(ds2, rest2) :=
      match rest with
      | 46%N :: r => (take_while is_digit r, drop_while is_digit r)
      | _ => ([], rest)
      end in
    match ds1, ds2 with
    | [], [] => S754_nan
    | _, _ =>
        let ex :=
          match rest2 with
          | c :: r =>
              if (N.eqb c 101 || N.eqb c 69)%N then
                let '(eneg, r') :=
                  match r with
                  | 43%N :: r' => (false, r')
                  | 45%N :: r' => (true, r')
                  | _ => (false, r)
                  end in
                let ds3 := take_while is_digit r' in
                let v := digits_value 10 dec_val ds3 in
                if eneg then (- v)%Z else v
              else 0%Z
          | [] => 0%Z
          end in
        of_decimal neg (digits_value 10 dec_val (ds1 ++ ds2))
          (ex - Z.of_nat (List.length ds2))
    end.

(** A numeric literal of the source, read with the same rounding. *)
Definition lit (s : string) : num := parse_float (u s).
Arguments lit s%_string.

(** Digits of a non-negative integer in radix 16 (lower case), as
    Number::toString(16) writes an integral value. *)
Definition hex_char (d : Z) : N :=
  if (d <? 10)%Z then (48 + Z.to_N d)%N else (87 + Z.to_N d)%N.

Fixpoint hex_digits_aux (fuel : nat) (z : Z) (acc : jstr) : jstr :=
  match fuel with
  | O => acc
  | S f =>
      let acc' := hex_char (z mod 16) :: acc in
      if z <? 16 then acc' else hex_digits_aux f (z / 16) acc'
  end%Z.

Definition hex_digits (z : Z) : jstr :=
  hex_digits_aux (S (Z.to_nat (Z.log2 z))) z [].

Definition is_hex (c : N) : bool :=
  is_digit c || ((97 <=? c) && (c <=? 102))%N || ((65 <=? c) && (c <=? 70))%N.

Definition hex_val (c : N) : Z :=
  if is_digit c then Z.of_N (c - 48)
  else if (97 <=? c)%N then Z.of_N (c - 87) else Z.of_N (c - 55).

(** parseInt(s, 16). *)
Definition parse_int16 (s0 : jstr) : num :=
  let s1 := drop_while is_ws s0 in
  let '(neg, s) :=
    match s1 with
    | c :: r =>
        if N.eqb c 43 then (false, r) else if N.eqb c 45 then (true, r) else (false, s1)
    | [] => (false, s1)
    end in
  let s' :=
    match s with
    | c :: x :: r => if (N.eqb c 48 && (N.eqb x 120 || N.eqb x 88))%N then r else s
    | _ => s
    end in
  match take_while is_hex s' with
  | [] => S754_nan
  | ds =>
      match digits_value 16 hex_val ds with
      | Z0 => S754_zero neg
      | v => of_Z (if neg then (- v)%Z else v)
      end
  end.

(** ToInt32, the conversion the bitwise operators apply. *)
Definition to_int32 (x : num) : Z :=
  match x with
  | S754_finite s m e =>
      let '(a, b) := ratio_of m e in
      let t := (a / b)%Z in
      let w := ((if s then (- t) else t) mod 2 ^ 32)%Z in
      if (2 ^ 31 <=? w)%Z then (w - 2 ^ 32)%Z else w
  | _ => 0%Z
  end.

(** [String.prototype.replace] with a string pattern: the first occurrence
    of the single character [c] is removed. *)
Fixpoint remove_first (c : N) (s : jstr) : jstr :=
  match s with
  | [] => []
  | x :: r => if N.eqb x c then r else x :: remove_first c r
  end.

Definition zero : num := S754_zero false.

(** [Math.min(255, Math.max(0, Math.round(channel)))]. The result is an
    integral Number in [0, 255], or NaN ([None]) when [channel] is NaN. *)
Definition clampChannel (x : num) : option Z :=
  match x with
  | S754_nan => None
  | S754_infinity s => Some (if s then 0 else 255)%Z
  | S754_zero _ => Some 0%Z
  | S754_finite s m e => Some (Z.min 255 (Z.max 0 (round_finite s m e)))
  end.

(** [x << k] on an integral Number in [0, 255] or NaN. *)
Definition shl_channel (x : option Z) (k : Z) : Z :=
  match x with
  | Some z => Z.shiftl z k
  | None => 0%Z
  end.

Definition adjustColor (hex : jstr) (amount : num) : jstr :=
  let normalized := remove_first 35 hex in
  let bigint := parse_int16 normalized in
  let r := Z.land (Z.shiftr (to_int32 bigint) 16) 255 in
  let g := Z.land (Z.shiftr (to_int32 bigint) 8) 255 in
  let b := Z.land (to_int32 bigint) 255 in
  let factor := if fleb zero amount then amount else fopp amount in
  let adjust (channel : Z) :=
    if fleb zero amount then
      clampChannel (fadd (of_Z channel) (fmul (fsub (of_Z 255) (of_Z channel)) factor))
    else clampChannel (fmul (of_Z channel) (fsub (of_Z 1) factor)) in
  let newR := adjust r in
  let newG := adjust g in
  let newB := adjust b in
  let packed :=
    match newB with
    | Some nb =>
        hex_digits (2 ^ 24 + shl_channel newR 16 + shl_channel newG 8 + nb)%Z
    | None => u "NaN"
    end in
  35%N :: skipn 1 packed.

(** ** Configuration values *)

(** The JavaScript values a configuration field may hold where the script
    converts or tests them ([String(v)], [v || default]). *)
Inductive jsval :=
| JUndefined
| JStr (s : jstr)
| JNum (n : num).

Definition js_String (v : jsval) : jstr :=
  match v with
  | JUndefined => u "undefined"
  | JStr s => s
  | JNum n => to_string n
  end.

Definition truthy (v : jsval) : bool :=
  match v with
  | JUndefined => false
  | JStr s => negb (Nat.eqb (List.length s) 0)
  | JNum (S754_zero _) | JNum S754_nan => false
  | JNum _ => true
  end.

(** [v || d] *)
Definition js_or (v d : jsval) : jsval := if truthy v then v else d.

Record Spacing := { baseUnit : jsval; ratioLineHeight : jsval }.
Record Typography := { main : jstr; headlines : jstr }.
Record Layout := {
  container : jstr;
  cols : N;
  breakpoints : list (jstr * jstr)   (* Object.entries order *)
}.
Record Transition := { duration : jstr; type : jstr }.
Record Theme := {
  colors : list (jstr * jstr);       (* Object.entries order *)
  typography : Typography;
  layout : Layout;
  spacing : Spacing;
  transition : Transition
}.
Record Config := {
  theme : Theme;
  components : list jstr;
  utilities : list jstr;
  darkMode : bool
}.

(** ** Color palette (generateColorPalette) *)

Definition LIGHTEN_STRENGTH : num := lit "0.18".
Definition DARKEN_STRENGTH : num := lit "0.18".

(** One iteration of the first [forEach]: the two accumulators [base] and
    [utilities]. *)
Definition palette_entry (acc : jstr * jstr) (entry : jstr * jstr) : jstr * jstr :=
  let '(base, utilities) := acc in
  let '(name, value) := entry in
  let light := adjustColor value LIGHTEN_STRENGTH in
  let dark := adjustColor value (fopp DARKEN_STRENGTH) in
  let base := base ++ u "  --color-" ++ name ++ u ": " ++ value ++ u ";\n" in
  let base := base ++ u "  --color-" ++ name ++ u "-light: " ++ light ++ u ";\n" in
  let base := base ++ u "  --color-" ++ name ++ u "-dark: " ++ dark ++ u ";\n" in
  let utilities := utilities ++ u ".text-" ++ name ++ u " { color: var(--color-" ++ name ++ u "); }\n" in
  let utilities := utilities ++ u ".text-" ++ name ++ u "-light { color: var(--color-" ++ name ++ u "-light); }\n" in
  let utilities := utilities ++ u ".text-" ++ name ++ u "-dark { color: var(--color-" ++ name ++ u "-dark); }\n" in
  let utilities := utilities ++ u ".bg-" ++ name ++ u " { background-color: var(--color-" ++ name ++ u "); color: #0f172a; }\n" in
  let utilities := utilities ++ u ".bg-" ++ name ++ u "-light { background-color: var(--color-" ++ name ++ u "-light); color: #0f172a; }\n" in
  let utilities := utilities ++ u ".bg-" ++ name ++ u "-dark { background-color: var(--color-" ++ name ++ u "-dark); color: #f8fafc; }\n" in
  let utilities := utilities ++ u ".border-" ++ name ++ u " { border-color: var(--color-" ++ name ++ u "); }\n" in
  (base, utilities).

(** One iteration of the dark-mode [forEach]. *)
Definition dark_entry (darkRoot : jstr) (entry : jstr * jstr) : jstr :=
  let '(name, value) := entry in
  let darker := adjustColor value (fmul (fopp DARKEN_STRENGTH) (lit "1.2")) in
  let lifted := adjustColor value (fmul LIGHTEN_STRENGTH (lit "0.8")) in
  let darkRoot := darkRoot ++ u "    --color-" ++ name ++ u ": " ++ darker ++ u ";\n" in
  let darkRoot := darkRoot ++ u "    --color-" ++ name ++ u "-light: " ++ lifted ++ u ";\n" in
  darkRoot ++ u "    --color-" ++ name ++ u "-dark: " ++ adjustColor darker (fopp (lit "0.08")) ++ u ";\n".

Definition generateColorPalette (colors : list (jstr * jstr)) (darkMode : bool) : jstr :=
  let '(base, utilities) := fold_left palette_entry colors (u ":root {\n", []) in
  let base := base ++ u "}\n\n" in
  let darkRoot :=
    if darkMode then
      let darkRoot := u "@media (prefers-color-scheme: dark) {\n  :root {\n" in
      let darkRoot := fold_left dark_entry colors darkRoot in
      darkRoot ++ u "  }\n  body { background-color: #0f172a; color: #e2e8f0; }\n}\n\n"
    else [] in
  base ++ utilities ++ darkRoot.

(** ** Typography *)

Definition generateTypography (theme : Theme) : jstr :=
  let lineHeightPercent :=
    fmul (parse_float (js_String (js_or (ratioLineHeight (spacing theme)) (JNum (lit "1.4")))))
      (lit "100") in
  u "body {\n  font-family: " ++ main (typography theme) ++ u ";\n  line-height: "
    ++ to_string lineHeightPercent ++ u "%;\n  color: #0f172a;\n}\n\n"
  ++ u "h1, h2, h3, h4, h5, h6 {\n  font-family: " ++ headlines (typography theme)
    ++ u ";\n  line-height: 120%;\n  margin-bottom: 0.5em;\n}\n".

(** ** parseUnit and spacingValue *)

Record Unit := { number : num; unit : jstr }.

Definition is_numch (c : N) : bool := is_digit c || N.eqb c 46.
Definition is_unitch (c : N) : bool := ((97 <=? c) && (c <=? 122))%N || N.eqb c 37.

(** The pattern [([0-9.]+)([a-z%]+)] tried at the head of [s]. *)
Definition unit_match_at (s : jstr) : option (jstr * jstr) :=
  match take_while is_numch s with
  | [] => None
  | run =>
      match take_while is_unitch (drop_while is_numch s) with
      | [] => None
      | suffix => Some (run, suffix)
      end
  end.

(** [String.prototype.match] with a non-global pattern: the leftmost match. *)
Fixpoint unit_match (s : jstr) : option (jstr * jstr) :=
  match s with
  | [] => None
  | _ :: r =>
      match unit_match_at s with
      | Some m => Some m
      | None => unit_match r
      end
  end.

Definition parseUnit (value : jsval) : Unit :=
  match unit_match (js_String value) with
  | Some (n, suffix) => {| number := parse_float n; unit := suffix |}
  | None => {| number := zero; unit := u "px" |}
  end.

Definition spacingValue (baseUnit : jsval) (multiplier : num) : jstr :=
  let pu := parseUnit baseUnit in
  let raw := fmul (number pu) multiplier in
  let trimmed := if is_integer raw then raw else parse_float (to_fixed raw 3) in
  to_string trimmed ++ unit pu.

(** ** Layout *)

(** [for (; i <= cols; i += 1) css += body(i)] from the given first index;
    [fuel] bounds the number of iterations. *)
Fixpoint for_cols (fuel : nat) (i cols : N) (body : N -> jstr) (css : jstr) : jstr :=
  match fuel with
  | O => css
  | S f => if (i <=? cols)%N then for_cols f (i + 1) cols body (css ++ body i) else css
  end.

Definition percentage (cols i : N) : jstr :=
  to_fixed (fmul (fdiv (of_Z (Z.of_N i)) (of_Z (Z.of_N cols))) (lit "100")) 4.

Definition num_N (i : N) : jstr := to_string (of_Z (Z.of_N i)).

Definition col_line (cols i : N) : jstr :=
  u ".col-" ++ num_N i ++ u " { flex: 0 0 " ++ percentage cols i ++ u "%; max-width: "
    ++ percentage cols i ++ u "%; }\n".

Definition bp_col_line (prefix : jstr) (cols i : N) : jstr :=
  u "  ." ++ prefix ++ u "\\:col-" ++ num_N i ++ u " { flex: 0 0 " ++ percentage cols i
    ++ u "%; max-width: " ++ percentage cols i ++ u "%; }\n".

Definition generateLayout (theme : Theme) : jstr :=
  let lay := layout theme in
  let pu := parseUnit (js_or (baseUnit (spacing theme)) (JStr (u "16px"))) in
  let baseNumber := number pu in
  let baseUnit := unit pu in
  let css := u ".container {\n  max-width: " ++ container lay ++ u ";\n  margin: 0 auto;\n  padding: 0 "
    ++ to_string baseNumber ++ baseUnit ++ u ";\n}\n\n" in
  let css := css ++ u ".row {\n  display: flex;\n  flex-wrap: wrap;\n  gap: "
    ++ to_string baseNumber ++ baseUnit ++ u ";\n}\n\n" in
  let css := for_cols (N.to_nat (cols lay)) 1 (cols lay) (col_line (cols lay)) css in
  let css := css ++ u "\n" in
  fold_left
    (fun css '(prefix, size) =>
       let css := css ++ u "@media (min-width: " ++ size ++ u ") {\n" in
       let css := for_cols (N.to_nat (cols lay)) 1 (cols lay) (bp_col_line prefix (cols lay)) css in
       css ++ u "}\n\n")
    (breakpoints lay) css.

(** ** Spacing utilities *)

Definition scale : list num :=
  [lit "0"; lit "0.25"; lit "0.5"; lit "0.75"; lit "1"; lit "1.5"; lit "2"; lit "3"].

Definition properties : list (jstr * jstr) := [(u "m", u "margin"); (u "p", u "padding")].

Definition directions : list (jstr * list jstr) :=
  [(([] : jstr), [([] : jstr)]); (u "t", [u "-top"]); (u "b", [u "-bottom"]); (u "l", [u "-left"]);
   (u "r", [u "-right"]); (u "x", [u "-left"; u "-right"]); (u "y", [u "-top"; u "-bottom"])].

(** [Array.prototype.join(sep)] *)
Fixpoint join (sep : jstr) (l : list jstr) : jstr :=
  match l with
  | [] => []
  | [x] => x
  | x :: r => x ++ sep ++ join sep r
  end.

(** [forEach((step, index) => ...)]: a left fold that also passes the index. *)
Fixpoint fold_indexed {A B : Type} (f : A -> B -> N -> A) (l : list B) (i : N) (acc : A) : A :=
  match l with
  | [] => acc
  | x :: r => fold_indexed f r (i + 1)%N (f acc x i)
  end.

Definition spacing_class (breakpoints : list (jstr * jstr)) (baseUnit : jsval)
    (property : jstr * jstr) (direction : jstr * list jstr) (css : jstr) (step : num) (index : N) : jstr :=
  let value := spacingValue baseUnit step in
  let className := fst property ++ (match fst direction with [] => [] | d => u "-" ++ d end)
                   ++ u "-" ++ num_N index in
  let rules := join (u " ") (map (fun suffix => snd property ++ suffix ++ u ": " ++ value ++ u ";")
                                 (snd direction)) in
  let css := css ++ u "." ++ className ++ u " { " ++ rules ++ u " }\n" in
  fold_left
    (fun css '(prefix, size) =>
       css ++ u "@media (min-width: " ++ size ++ u ") { ." ++ prefix ++ u "\\:" ++ className
         ++ u " { " ++ rules ++ u " } }\n")
    breakpoints css.

Definition generateSpacingUtilities (theme : Theme) : jstr :=
  let baseUnit := js_or (baseUnit (spacing theme)) (JStr (u "16px")) in
  let bps := breakpoints (layout theme) in
  let css :=
    fold_left (fun css property =>
      fold_left (fun css direction =>
        fold_indexed (spacing_class bps baseUnit property direction) scale 0%N css)
        directions css)
      properties [] in
  css ++ u "\n".

(** ** Flex, image and transition utilities *)

Definition flex_definitions : list (jstr * jstr) :=
  [(u "flex", u "display: flex;");
   (u "inline-flex", u "display: inline-flex;");
   (u "flex-col", u "flex-direction: column;");
   (u "flex-row", u "flex-direction: row;");
   (u "flex-wrap", u "flex-wrap: wrap;");
   (u "items-center", u "align-items: center;");
   (u "items-start", u "align-items: flex-start;");
   (u "items-end", u "align-items: flex-end;");
   (u "justify-center", u "justify-content: center;");
   (u "justify-between", u "justify-content: space-between;");
   (u "justify-around", u "justify-content: space-around;");
   (u "grow", u "flex: 1 1 0%;");
   (u "shrink", u "flex: 0 1 auto;")].

Definition generateFlexUtilities (lay : Layout) : jstr :=
  let css := fold_left (fun css '(className, rules) =>
                css ++ u "." ++ className ++ u " { " ++ rules ++ u " }\n") flex_definitions [] in
  let css := css ++ u "\n" in
  fold_left
    (fun css '(prefix, size) =>
       let css := css ++ u "@media (min-width: " ++ size ++ u ") {\n" in
       let css := fold_left (fun css '(className, rules) =>
                    css ++ u "  ." ++ prefix ++ u "\\:" ++ className ++ u " { " ++ rules ++ u " }\n")
                    flex_definitions css in
       css ++ u "}\n")
    (breakpoints lay) css.

Definition generateImageUtilities : jstr :=
  u ".img-responsive { display: block; width: 100%; height: auto; }\n.img-cover { width: 100%; height: 100%; object-fit: cover; }\n.img-contain { width: 100%; height: 100%; object-fit: contain; }\n\n".

Definition generateTransitionUtility (theme : Theme) : jstr :=
  u ".transition { transition: all " ++ duration (transition theme) ++ u " "
    ++ type (transition theme) ++ u "; }\n".

(** ** Components *)

Definition button_css (sp : Spacing) (tr : Transition) (basePadding : jstr) : jstr :=
  u ".btn {\n  display: inline-flex;\n  align-items: center;\n  justify-content: center;\n  gap: "
  ++ spacingValue (baseUnit sp) (lit "0.5") ++ u ";\n  padding: " ++ basePadding ++ u " "
  ++ spacingValue (baseUnit sp) (lit "1.25")
  ++ u ";\n  border-radius: 9999px;\n  border: 1px solid var(--color-primary);\n  background: var(--color-primary);\n  color: white;\n  font-weight: 600;\n  cursor: pointer;\n  text-decoration: none;\n  transition: background-color "
  ++ duration tr ++ u " " ++ type tr ++ u ", transform " ++ duration tr ++ u " " ++ type tr
  ++ u ";\n}\n.btn:hover { transform: translateY(-1px); background: var(--color-primary-dark); }\n.btn:active { transform: translateY(0); }\n.btn-secondary { background: white; color: var(--color-primary); border-color: var(--color-primary); }\n.btn-secondary:hover { background: var(--color-primary-light); color: #0f172a; }\n\n".

Definition card_css (sp : Spacing) (tr : Transition) (baseMargin : jstr) : jstr :=
  u ".card {\n  background: white;\n  border: 1px solid #e5e7eb;\n  border-radius: 12px;\n  padding: "
  ++ spacingValue (baseUnit sp) (lit "1.5")
  ++ u ";\n  box-shadow: 0 10px 30px rgba(15, 23, 42, 0.08);\n  transition: box-shadow "
  ++ duration tr ++ u " " ++ type tr ++ u ", transform " ++ duration tr ++ u " " ++ type tr
  ++ u ";\n}\n.card:hover { box-shadow: 0 15px 40px rgba(15, 23, 42, 0.12); transform: translateY(-2px); }\n.card + .card { margin-top: "
  ++ baseMargin ++ u "; }\n\n".

Definition alert_css (sp : Spacing) (basePadding : jstr) : jstr :=
  let css := u ".alert {\n  padding: " ++ basePadding
    ++ u ";\n  border-radius: 12px;\n  border: 1px solid transparent;\n  display: flex;\n  align-items: center;\n  gap: "
    ++ spacingValue (baseUnit sp) (lit "0.5") ++ u ";\n  font-weight: 600;\n}\n" in
  let css := fold_left (fun css tone =>
      css ++ u ".alert-" ++ tone ++ u " { background: var(--color-" ++ tone
        ++ u "-light); border-color: var(--color-" ++ tone ++ u "); color: #0f172a; }\n")
      [u "primary"; u "success"; u "warning"; u "danger"] css in
  css ++ u "\n".

Definition generateComponents (components : list jstr) (theme : Theme) : jstr :=
  let sp := spacing theme in
  let tr := transition theme in
  let basePadding := spacingValue (baseUnit sp) (lit "0.75") in
  let baseMargin := spacingValue (baseUnit sp) (lit "0.5") in
  let css := [] in
  let css := if includes components (u "button") then css ++ button_css sp tr basePadding else css in
  let css := if includes components (u "card") then css ++ card_css sp tr baseMargin else css in
  let css := if includes components (u "alert") then css ++ alert_css sp basePadding else css in
  css.

Definition generateUtilityCss (config : Config) : jstr :=
  let th := theme config in
  let css := [] in
  let css := if includes (utilities config) (u "spacing") then css ++ generateSpacingUtilities th else css in
  let css := if includes (utilities config) (u "flex") then css ++ generateFlexUtilities (layout th) else css in
  let css :=
    if includes (utilities config) (u "color") then
      css ++ join [] (map (fun name => u "." ++ name ++ u "-border { border-color: var(--color-"
                                      ++ name ++ u "); }\n") (map fst (colors th)))
    else css in
  let css := if includes (utilities config) (u "image") then css ++ generateImageUtilities else css in
  css ++ generateTransitionUtility th.

(** ** Autoprefixer *)

(** The patterns of the replacement table: a literal text, or a property
    name and [:], a whitespace run [\s*] and a value text. *)
Inductive pattern :=
| PLit (p : jstr)
| PDecl (name value : jstr).

(** Length of the match of a pattern at the head of [s]. *)
Definition match_at (pat : pattern) (s : jstr) : option nat :=
  match pat with
  | PLit p => if prefixb p s then Some (List.length p) else None
  | PDecl name value =>
      if prefixb name s then
        let rest := skipn (List.length name) s in
        let ws := take_while is_ws rest in
        if prefixb value (skipn (List.length ws) rest)
        then Some (List.length name + List.length ws + List.length value)%nat
        else None
      else None
  end.

(** [s.replace(pattern, f)] with a global pattern: scan left to right,
    replace every match [m] by [f m], resume after it. The matches of the
    table are never empty, so [List.length s] steps suffice. *)
Fixpoint replace_scan (fuel : nat) (pat : pattern) (f : jstr -> jstr) (s : jstr) : jstr :=
  match fuel with
  | O => s
  | S fuel' =>
      match s with
      | [] => []
      | c :: r =>
          match match_at pat s with
          | Some (S k) => f (firstn (S k) s) ++ replace_scan fuel' pat f (skipn (S k) s)
          | _ => c :: replace_scan fuel' pat f r
          end
      end
  end.

Definition replace_all (pat : pattern) (f : jstr -> jstr) (s : jstr) : jstr :=
  replace_scan (List.length s) pat f s.

Definition replacements : list (pattern * jstr) :=
  [(PDecl (u "display:") (u "flex;"), u "display: -webkit-box;\n  display: -ms-flexbox;\n  display: flex;");
   (PDecl (u "display:") (u "inline-flex;"), u "display: -webkit-inline-box;\n  display: -ms-inline-flexbox;\n  display: inline-flex;");
   (PLit (u "user-select:"), u "-webkit-user-select:");
   (PDecl (u "appearance:") (u "none;"), u "-webkit-appearance: none;\n  appearance: none;");
   (PLit (u "backdrop-filter:"), u "-webkit-backdrop-filter:");
   (PLit (u "object-fit:"), u "-o-object-fit:");
   (PLit (u "transition:"), u "-webkit-transition:");
   (PLit (u "box-shadow:"), u "-webkit-box-shadow:");
   (PLit (u "transform:"), u "-webkit-transform:")].

Definition applyAutoprefix (css : jstr) : jstr :=
  fold_left (fun prefixed '(pat, value) =>
               replace_all pat (fun m => value ++ u "\n  " ++ m) prefixed)
            replacements css.

(** ** Minifier *)

(** Rest of the text after the first [*/], if any. *)
Fixpoint after_close (s : jstr) : option jstr :=
  match s with
  | 42%N :: 47%N :: r => Some r
  | _ :: r => after_close r
  | [] => None
  end.

(** [.replace(/\/\*[^*]*\*+([^/*][^*]*\*+)*\//g, '')]: the pattern matches
    from a [/*] up to the first [*/] after it. *)
Fixpoint strip_comments (fuel : nat) (s : jstr) : jstr :=
  match fuel with
  | O => s
  | S f =>
      match s with
      | 47%N :: ((42%N :: r) as t) =>
          match after_close r with
          | Some r' => strip_comments f r'
          | None => 47%N :: strip_comments f t
          end
      | c :: r => c :: strip_comments f r
      | [] => []
      end
  end.

Definition is_punct (c : N) : bool :=
  match c with 123 | 125 | 58 | 59 | 44 => true | _ => false end%N.

(** [.replace(/\s*([{}:;,])\s*/g, '$1')]. A whitespace run is kept in
    [pend] until the next character shows whether the run precedes a
    punctuation character (then the run is part of a match and dropped);
    [after] is set while the trailing [\s*] of a match is being consumed. *)
Fixpoint strip_punct (after : bool) (pend : jstr) (s : jstr) : jstr :=
  match s with
  | [] => if after then [] else pend
  | c :: r =>
      if is_ws c then
        if after then strip_punct true [] r else strip_punct false (pend ++ [c]) r
      else if is_punct c then c :: strip_punct true [] r
      else pend ++ c :: strip_punct false [] r
  end.

(** [.replace(/;}/g, '}')] *)
Fixpoint drop_semi (s : jstr) : jstr :=
  match s with
  | 59%N :: 125%N :: r => 125%N :: drop_semi r
  | c :: r => c :: drop_semi r
  | [] => []
  end.

(** [.replace(/\s+/g, ' ')]; [in_run] is set inside a whitespace run
    already replaced by its space. *)
Fixpoint collapse_ws (in_run : bool) (s : jstr) : jstr :=
  match s with
  | [] => []
  | c :: r =>
      if is_ws c then
        if in_run then collapse_ws true r else 32%N :: collapse_ws true r
      else c :: collapse_ws false r
  end.

(** [.trim()] *)
Definition trim (s : jstr) : jstr := rev (drop_while is_ws (rev (drop_while is_ws s))).

Definition minifyCSS (css : jstr) : jstr :=
  trim (collapse_ws false (drop_semi (strip_punct false [] (strip_comments (List.length css) css)))).

(** ** Class count *)

Definition is_cls (c : N) : bool :=
  is_digit c || ((97 <=? c) && (c <=? 122))%N || ((65 <=? c) && (c <=? 90))%N
  || N.eqb c 95 || N.eqb c 45.

(** [css.match(/\.[a-zA-Z0-9_-]+/g) || []] *)
Fixpoint class_matches (fuel : nat) (s : jstr) : list jstr :=
  match fuel with
  | O => []
  | S f =>
      match s with
      | c :: r =>
          if N.eqb c 46 then
            match take_while is_cls r with
            | [] => class_matches f r
            | run => (46%N :: run) :: class_matches f (drop_while is_cls r)
            end
          else class_matches f r
      | [] => []
      end
  end.

(** [new Set(l).size] *)
Fixpoint undup (l : list jstr) : list jstr :=
  match l with
  | [] => []
  | x :: r => if includes r x then undup r else x :: undup r
  end.

Definition countClasses (css : jstr) : nat :=
  List.length (undup (class_matches (List.length css) css)).

(** ** The build *)

Definition header : jstr :=
  u "/*\n  Plugo CSS Framework\n  Generated automatically from plugo.config.js\n*/\n\n".

(** The stylesheet text assembled by [build] before the autoprefixer. *)
Definition generateCss (config : Config) : jstr :=
  let th := theme config in
  let css := header in
  let css := css ++ generateColorPalette (colors th) (darkMode config) in
  let css := css ++ generateTypography th in
  let css := css ++ (u "\n" ++ generateLayout th) in
  let css := css ++ (u "\n" ++ generateComponents (components config) th) in
  css ++ (u "\n/* Utilities */\n" ++ generateUtilityCss config).

(** [Buffer.byteLength(s)]: the length of the UTF-8 encoding; a lone
    surrogate is encoded as U+FFFD. *)
Fixpoint utf8_length (s : jstr) : nat :=
  match s with
  | [] => O
  | c :: r =>
      if (c <? 128)%N then S (utf8_length r)
      else if (c <? 2048)%N then 2 + utf8_length r
      else if ((55296 <=? c) && (c <=? 56319))%N then
        match r with
        | d :: r' => if ((56320 <=? d) && (d <=? 57343))%N then 4 + utf8_length r'
                     else 3 + utf8_length r
        | [] => 3
        end
      else 3 + utf8_length r
  end.

Record Report := { classes : nat; readableSize : jstr; minifiedSize : jstr }.

Inductive Event :=
| Log (msg : jstr)
| Table (r : Report)
| Error (msg : jstr).

Inductive Exit := ExitOk | ExitFail.

(** How an [fs.writeFile] call ends, as the environment decides it. The
    file is opened with truncation and then written: a failure before the
    open leaves the file as it was, a failure after it leaves whatever part
    of the text reached the disk ([kept] of the text); the rejection is not
    rolled back. *)
Inductive WriteResult :=
| WriteOk
| OpenFailed
| WriteFailed (kept : jstr -> jstr).

(** The file system and the console, as far as the build touches them. *)
Record World := {
  files : jstr -> option jstr;
  write_result : jstr -> WriteResult;
  console : list Event
}.

(** [path.resolve(__dirname, '../plugo.css')] and the minified path. *)
Definition cssPath : jstr := u "plugo.css".
Definition minPath : jstr := u "plugo.min.css".

Definition store (w : World) (p c : jstr) : World :=
  {| files := fun q => if jstr_eqb q p then Some c else files w q;
     write_result := write_result w; console := console w |}.

(** [await fs.writeFile(p, c, 'utf8')]: the new world, and whether the
    promise resolved. *)
Definition writeFile (w : World) (p c : jstr) : World * bool :=
  match write_result w p with
  | WriteOk => (store w p c, true)
  | OpenFailed => (w, false)
  | WriteFailed kept => (store w p (kept c), false)
  end.

Definition log (w : World) (e : Event) : World :=
  {| files := files w; write_result := write_result w; console := console w ++ [e] |}.

Definition byte_size (s : jstr) : jstr :=
  to_string (of_Z (Z.of_nat (utf8_length s))) ++ u " bytes".

(** [build()] followed by its [catch] handler. A failed write rejects the
    promise: the handler logs the error and the process exits with code 1. *)
Definition build (config : Config) (w : World) : World * Exit :=
  let css := generateCss config in
  let prefixed := applyAutoprefix css in
  let minified := minifyCSS prefixed in
  let failed w := (log w (Error (u "Failed to build Plugo CSS")), ExitFail) in
  let '(w, ok) := writeFile w cssPath prefixed in
  if ok then
    let '(w, ok) := writeFile w minPath minified in
    if ok then
      let report := {| classes := countClasses prefixed;
                       readableSize := byte_size prefixed;
                       minifiedSize := byte_size minified |} in
      (log (log w (Log (u "Plugo build complete"))) (Table report), ExitOk)
    else failed w
  else failed w.

(** * Reference definitions, following the wording of the specification *)

(** The palette as described: per color, three custom properties inside
    [:root]; per color, seven utility classes; an optional dark block. *)
Module PaletteSpec.

Definition property (indent name suffix value : jstr) : jstr :=
  indent ++ u "--color-" ++ name ++ suffix ++ u ": " ++ value ++ u ";\n".

Definition var (name suffix : jstr) : jstr := u "var(--color-" ++ name ++ suffix ++ u ")".

Definition utility (kind name suffix decls : jstr) : jstr :=
  u "." ++ kind ++ u "-" ++ name ++ suffix ++ u " { " ++ decls ++ u " }\n".

Definition adjust := adjustColor.

Definition color_properties (entry : jstr * jstr) : jstr :=
  let '(name, base) := entry in
  property (u "  ") name [] base
  ++ property (u "  ") name (u "-light") (adjust base (lit "0.18"))
  ++ property (u "  ") name (u "-dark") (adjust base (fopp (lit "0.18"))).

Definition color_classes (entry : jstr * jstr) : jstr :=
  let name := fst entry in
  let on_light := u "; color: #0f172a;" in
  let on_dark := u "; color: #f8fafc;" in
  utility (u "text") name [] (u "color: " ++ var name [] ++ u ";")
  ++ utility (u "text") name (u "-light") (u "color: " ++ var name (u "-light") ++ u ";")
  ++ utility (u "text") name (u "-dark") (u "color: " ++ var name (u "-dark") ++ u ";")
  ++ utility (u "bg") name [] (u "background-color: " ++ var name [] ++ on_light)
  ++ utility (u "bg") name (u "-light") (u "background-color: " ++ var name (u "-light") ++ on_light)
  ++ utility (u "bg") name (u "-dark") (u "background-color: " ++ var name (u "-dark") ++ on_dark)
  ++ utility (u "border") name [] (u "border-color: " ++ var name [] ++ u ";").

Definition dark_properties (entry : jstr * jstr) : jstr :=
  let '(name, base) := entry in
  let darker := adjust base (fmul (fopp (lit "0.18")) (lit "1.2")) in
  property (u "    ") name [] darker
  ++ property (u "    ") name (u "-light") (adjust base (fmul (lit "0.18") (lit "0.8")))
  ++ property (u "    ") name (u "-dark") (adjust darker (fopp (lit "0.08"))).

Definition body_override : jstr :=
  u "  body { background-color: #0f172a; color: #e2e8f0; }\n".

Definition palette (colors : list (jstr * jstr)) (darkMode : bool) : jstr :=
  u ":root {\n" ++ flat_map color_properties colors ++ u "}\n\n"
  ++ flat_map color_classes colors
  ++ (if darkMode
      then u "@media (prefers-color-scheme: dark) {\n" ++ u "  :root {\n"
           ++ flat_map dark_properties colors ++ u "  }\n" ++ body_override ++ u "}\n\n"
      else []).

End PaletteSpec.

(** Number.isFinite, used to state hypotheses. *)
Definition is_finite (x : num) : bool :=
  match x with
  | S754_zero _ | S754_finite _ _ _ => true
  | _ => false
  end.



(** A theme that differs from [th] only in [spacing.baseUnit]. *)
Definition with_base (th : Theme) (b : jsval) : Theme :=
  {| colors := colors th; typography := typography th; layout := layout th;
     spacing := {| baseUnit := b; ratioLineHeight := ratioLineHeight (spacing th) |};
     transition := transition th |}.

(** The readable stylesheet as the orchestration is described: a fixed
    sequence of blocks, the optional ones chosen by membership in the
    [components] and [utilities] lists. *)
Module BuildSpec.

Definition block_if (names : list jstr) (name block : jstr) : jstr :=
  if includes names name then block else [].

Definition component_blocks (comps : list jstr) (th : Theme) : jstr :=
  let sp := spacing th in
  let tr := transition th in
  let basePadding := spacingValue (baseUnit sp) (lit "0.75") in
  let baseMargin := spacingValue (baseUnit sp) (lit "0.5") in
  block_if comps (u "button") (button_css sp tr basePadding)
  ++ block_if comps (u "card") (card_css sp tr baseMargin)
  ++ block_if comps (u "alert") (alert_css sp basePadding).

Definition color_border_block (th : Theme) : jstr :=
  flat_map (fun entry => u "." ++ fst entry ++ u "-border { border-color: var(--color-"
                           ++ fst entry ++ u "); }\n") (colors th).

Definition utility_blocks (config : Config) : jstr :=
  let th := theme config in
  let names := utilities config in
  block_if names (u "spacing") (generateSpacingUtilities th)
  ++ block_if names (u "flex") (generateFlexUtilities (layout th))
  ++ block_if names (u "color") (color_border_block th)
  ++ block_if names (u "image") generateImageUtilities
  ++ generateTransitionUtility th.

Definition readable (config : Config) : jstr :=
  let th := theme config in
  header ++ generateColorPalette (colors th) (darkMode config) ++ generateTypography th
  ++ u "\n" ++ generateLayout th
  ++ u "\n" ++ component_blocks (components config) th
  ++ u "\n/* Utilities */\n" ++ utility_blocks config.

End BuildSpec.

(** The class tokens as described by the pattern [\.[a-zA-Z0-9_-]+]: every
    dot followed by a non-empty maximal run of class characters. *)
Module ClassSpec.

Fixpoint dot_tokens (s : jstr) : list jstr :=
  match s with
  | [] => []
  | c :: r =>
      (if N.eqb c 46 then
         match take_while is_cls r with
         | [] => []
         | run => [46%N :: run]
         end
       else [])
      ++ dot_tokens r
  end.

End ClassSpec.

(** [adjustColor] as described, for a color [#d1d2d3d4d5d6]: each channel
    read from its pair of hex digits; moved toward 255 as
    [channel + (255 - channel) * amount] when [amount >= 0] and toward 0 as
    [channel * (1 - |amount|)] otherwise, in Number arithmetic; rounded to
    the nearest integer (halves upwards, as Math.round), clamped to
    [0, 255] and written as two zero-padded lower-case hex digits, the
    three channels in order after a '#'. *)
Module ColorSpec.

Definition channel (amount : num) (c : Z) : num :=
  if fleb zero amount then fadd (of_Z c) (fmul (fsub (of_Z 255) (of_Z c)) amount)
  else fmul (of_Z c) (fsub (of_Z 1) (SFabs amount)).

(** [floor (x + 1/2)], clamped to [0, 255]; infinities clamp to the bounds. *)
Definition round_clamp (x : num) : Z :=
  match x with
  | S754_infinity s => if s then 0%Z else 255%Z
  | S754_finite s m e =>
      let '(n, d) := ratio_of m e in
      let v := if s then (- n)%Z else n in
      Z.min 255 (Z.max 0 (Z.div (2 * v + d) (2 * d)))
  | _ => 0%Z
  end.

Definition pair_value (h l : N) : Z := (16 * hex_val h + hex_val l)%Z.

Definition hex2 (c : Z) : jstr := [hex_char (c / 16); hex_char (c mod 16)].

Definition adjust (d1 d2 d3 d4 d5 d6 : N) (amount : num) : jstr :=
  u "#" ++ hex2 (round_clamp (channel amount (pair_value d1 d2)))
  ++ hex2 (round_clamp (channel amount (pair_value d3 d4)))
  ++ hex2 (round_clamp (channel amount (pair_value d5 d6))).

End ColorSpec.

(** The column grid as described: for [i] from 1 to [cols], a class whose
    width is [(i / cols) * 100] written with four decimals, the same text
    for [flex-basis] and [max-width]; the same classes again inside a
    [min-width] media query per breakpoint, the class name prefixed and its
    colon escaped. The container and row rules come first. *)
Module LayoutSpec.

Definition indices (cols : N) : list N := map N.of_nat (seq 1 (N.to_nat cols)).

(** [((i / cols) * 100).toFixed(4)] *)
Definition pct (cols i : N) : jstr :=
  to_fixed (fmul (fdiv (of_Z (Z.of_N i)) (of_Z (Z.of_N cols))) (lit "100")) 4.

Definition column_rule (selector p : jstr) : jstr :=
  selector ++ u " { flex: 0 0 " ++ p ++ u "%; max-width: " ++ p ++ u "%; }\n".

Definition columns (cols : N) : jstr :=
  flat_map (fun i => column_rule (u ".col-" ++ num_N i) (pct cols i)) (indices cols).

Definition breakpoint_block (cols : N) (bp : jstr * jstr) : jstr :=
  u "@media (min-width: " ++ snd bp ++ u ") {\n"
  ++ flat_map (fun i => column_rule (u "  ." ++ fst bp ++ u "\\:col-" ++ num_N i) (pct cols i))
       (indices cols)
  ++ u "}\n\n".

Definition head (th : Theme) : jstr :=
  let pu := parseUnit (js_or (baseUnit (spacing th)) (JStr (u "16px"))) in
  u ".container {\n  max-width: " ++ container (layout th) ++ u ";\n  margin: 0 auto;\n  padding: 0 "
  ++ to_string (number pu) ++ unit pu ++ u ";\n}\n\n"
  ++ u ".row {\n  display: flex;\n  flex-wrap: wrap;\n  gap: "
  ++ to_string (number pu) ++ unit pu ++ u ";\n}\n\n".

Definition grid (th : Theme) : jstr :=
  head th ++ columns (cols (layout th)) ++ u "\n"
  ++ flat_map (breakpoint_block (cols (layout th))) (breakpoints (layout th)).

(** A decimal numeral with a non-empty integer part and exactly four
    fraction digits. *)
Definition four_decimals (p : jstr) : Prop :=
  exists ip fp, p = ip ++ u "." ++ fp /\ ip <> [] /\ List.length fp = 4%nat
    /\ forallb is_digit ip = true /\ forallb is_digit fp = true.

End LayoutSpec.

(** Concrete configurations and worlds used by the examples. *)
Module Examples.

Definition theme0 : Theme :=
  {| colors := [(u "primary", u "#3b82f6")];
     typography := {| main := u "Inter, sans-serif"; headlines := u "Poppins, sans-serif" |};
     layout := {| container := u "1200px"; cols := 2; breakpoints := [(u "sm", u "640px")] |};
     spacing := {| baseUnit := JStr (u "16px"); ratioLineHeight := JNum (lit "1.5") |};
     transition := {| duration := u "0.3s"; type := u "ease" |} |}.

Definition config0 : Config :=
  {| theme := theme0; components := [u "card"; u "button"]; utilities := [u "flex"];
     darkMode := false |}.

Definition world0 : World :=
  {| files := fun _ => None; write_result := fun _ => WriteOk; console := [] |}.

End Examples.

(** * Text properties used in the statements of the further properties *)

(** [P a b] holds for every two adjacent characters [a], [b] of [s]. *)
Fixpoint adj_ok (P : N -> N -> bool) (s : jstr) : bool :=
  match s with
  | a :: ((b :: _) as r) => P a b && adj_ok P r
  | _ => true
  end.

(** [P a b] for [a] and the first character of [s], if any. *)
Definition pair_ok (P : N -> N -> bool) (a : N) (s : jstr) : bool :=
  match s with [] => true | b :: _ => P a b end.

(** Two adjacent characters are not both whitespace. *)
Definition no_ws_pair (a b : N) : bool := negb (is_ws a && is_ws b).

(** Whitespace does not touch one of the characters [{ } : ; ,]. *)
Definition tight_pair (a b : N) : bool :=
  negb (is_ws a && is_punct b) && negb (is_punct a && is_ws b).

(** [subseq s t]: [s] is obtained from [t] by deleting characters. *)
Inductive subseq : jstr -> jstr -> Prop :=
| subseq_nil : subseq [] []
| subseq_skip s t c : subseq s t -> subseq s (c :: t)
| subseq_take s t c : subseq s t -> subseq (c :: s) (c :: t).

(** [s.includes(p)] *)
Fixpoint contains (p s : jstr) : bool :=
  prefixb p s || match s with [] => false | _ :: r => contains p r end.

(** The texts the autoprefixer patterns start with. *)
Definition trigger_names : list jstr :=
  [u "display:"; u "user-select:"; u "appearance:"; u "backdrop-filter:";
   u "object-fit:"; u "transition:"; u "box-shadow:"; u "transform:"].

Definition pat_name (pat : pattern) : jstr :=
  match pat with PLit p => p | PDecl name _ => name end.

(** Number of [.] characters. *)
Definition count_dots (s : jstr) : nat := List.length (filter (N.eqb 46) s).

(** [toLowerCase] on an ASCII character. *)
Definition ascii_lower (c : N) : N := if ((65 <=? c) && (c <=? 90))%N then (c + 32)%N else c.

(** A lowercase hex digit [0-9a-f]. *)
Definition is_lower_hex (c : N) : bool := is_digit c || ((97 <=? c) && (c <=? 102))%N.

(** * Proofs *)

(** ** Binary64 rounding: digits, magnitudes, exceptional values *)

Section Binary64.
Local Open Scope Z_scope.

Lemma fexp_eq (x : Z) : fexp prec emax x = Z.max (x - 53) (-1074).
Proof. reflexivity. Qed.

Lemma digits2_pos_size (p : positive) : digits2_pos p = Pos.size p.
Proof. induction p as [p IH|p IH|]; cbn; congruence. Qed.

Lemma Zdigits2_log2 (p : positive) : Zdigits2 (Zpos p) = Z.log2 (Zpos p) + 1.
Proof.
  cbn [Zdigits2]. rewrite digits2_pos_size.
  destruct p as [p|p|]; cbn [Z.log2 Pos.size]; try reflexivity; rewrite Pos2Z.inj_succ; lia.
Qed.

Lemma Zdigits2_nonneg (z : Z) : 0 <= z -> 0 <= Zdigits2 z.
Proof. intros H. destruct z as [|p|p]; cbn; lia. Qed.

Lemma Zdigits2_lt (z : Z) : 0 <= z -> z < 2 ^ Zdigits2 z.
Proof.
  intros H. destruct z as [|p|p]; [reflexivity| |lia].
  rewrite Zdigits2_log2. destruct (Z.log2_spec (Zpos p)) as [_ H2]; [lia|].
  rewrite <- Z.add_1_r in H2. exact H2.
Qed.

Lemma Zdigits2_ge (z : Z) : 0 < z -> 2 ^ (Zdigits2 z - 1) <= z.
Proof.
  intros H. destruct z as [|p|p]; try lia.
  rewrite Zdigits2_log2. replace (Z.log2 (Zpos p) + 1 - 1) with (Z.log2 (Zpos p)) by lia.
  apply Z.log2_spec; lia.
Qed.

Lemma Zdigits2_le (z k : Z) : 0 <= z -> 0 <= k -> z < 2 ^ k -> Zdigits2 z <= k.
Proof.
  intros H Hk Hz. destruct z as [|p|p]; [cbn; lia| |lia].
  rewrite Zdigits2_log2. apply Z.log2_lt_pow2 in Hz; lia.
Qed.

Lemma Zdigits2_mono (a b : Z) : 0 <= a <= b -> Zdigits2 a <= Zdigits2 b.
Proof.
  intros H. apply Zdigits2_le; [lia|apply Zdigits2_nonneg; lia|].
  pose proof (Zdigits2_lt b); lia.
Qed.

Lemma Zdigits2_succ (z : Z) : 0 <= z -> Zdigits2 (z + 1) <= Zdigits2 z + 1.
Proof.
  intros H. pose proof (Zdigits2_lt z H). pose proof (Zdigits2_nonneg z H).
  apply Zdigits2_le; [lia|lia|]. rewrite Z.pow_add_r by lia. lia.
Qed.

Lemma Zdigits2_div_pow2 (z k : Z) :
  0 <= z -> 0 <= k -> Zdigits2 (z / 2 ^ k) <= Z.max (Zdigits2 z - k) 0.
Proof.
  intros H Hk. pose proof (Zdigits2_lt z H). pose proof (Zdigits2_nonneg z H).
  destruct (Z_le_gt_dec (Zdigits2 z) k) as [L|L].
  - rewrite Z.div_small; [cbn; lia|]. split; [lia|].
    apply Z.lt_le_trans with (2 ^ Zdigits2 z); [assumption|apply Z.pow_le_mono_r; lia].
  - apply Z.le_trans with (Zdigits2 z - k); [|lia].
    apply Zdigits2_le; [apply Z.div_pos; [lia|apply Z.pow_pos_nonneg; lia]|lia|].
    apply Z.div_lt_upper_bound; [apply Z.pow_pos_nonneg; lia|].
    rewrite <- Z.pow_add_r by lia. replace (k + (Zdigits2 z - k)) with (Zdigits2 z) by lia.
    assumption.
Qed.

Lemma Zdigits2_mul (a b : Z) :
  0 <= a -> 0 <= b -> Zdigits2 (a * b) <= Zdigits2 a + Zdigits2 b.
Proof.
  intros Ha Hb. pose proof (Zdigits2_lt a Ha). pose proof (Zdigits2_lt b Hb).
  pose proof (Zdigits2_nonneg a Ha). pose proof (Zdigits2_nonneg b Hb).
  apply Zdigits2_le; [nia|lia|]. rewrite Z.pow_add_r by lia.
  apply Z.mul_lt_mono_nonneg; lia.
Qed.

Lemma Zdigits2_shift (a k : Z) : 0 < a -> 0 <= k -> Zdigits2 (a * 2 ^ k) = Zdigits2 a + k.
Proof.
  intros Ha Hk. destruct a as [|p|p]; try lia.
  assert (P : 0 < Zpos p * 2 ^ k) by (apply Z.mul_pos_pos; [lia|apply Z.pow_pos_nonneg; lia]).
  destruct (Zpos p * 2 ^ k) as [|q|q] eqn:E; try lia.
  rewrite !Zdigits2_log2, <- E, Z.log2_mul_pow2 by lia. lia.
Qed.

Lemma iter_xO (p d : positive) : Zpos (Pos.iter xO p d) = Zpos p * 2 ^ Zpos d.
Proof.
  induction d as [|d IH] using Pos.peano_ind.
  - cbn. lia.
  - rewrite Pos.iter_succ, Pos2Z.inj_xO, IH, Pos2Z.inj_succ, Z.pow_succ_r by lia. lia.
Qed.

Lemma iter_pos_nat {A : Type} (f : A -> A) (p : positive) (x : A) :
  iter_pos f p x = Nat.iter (Pos.to_nat p) f x.
Proof.
  revert x; induction p as [p IH|p IH|]; intros x; cbn [iter_pos].
  - rewrite !IH, Pos2Nat.inj_xI, <- Nat.iter_add, Nat.iter_succ_r. f_equal. lia.
  - rewrite !IH, Pos2Nat.inj_xO, <- Nat.iter_add. f_equal. lia.
  - reflexivity.
Qed.

Lemma shr_1_m (mrs : shr_record) : 0 <= shr_m mrs -> shr_m (shr_1 mrs) = shr_m mrs / 2.
Proof.
  destruct mrs as [m r s]; cbn [shr_m]; intros H.
  destruct m as [|[p|p|]|p]; cbn [shr_1 shr_m]; try reflexivity; try lia.
  - rewrite Pos2Z.inj_xI, Z.mul_comm, Z.add_comm, Z.div_add by lia. change (1 / 2) with 0. lia.
  - rewrite Pos2Z.inj_xO, Z.mul_comm, Z.div_mul by lia. reflexivity.
Qed.

Lemma iter_shr_1 (n : nat) (mrs : shr_record) :
  0 <= shr_m mrs -> shr_m (Nat.iter n shr_1 mrs) = shr_m mrs / 2 ^ Z.of_nat n.
Proof.
  intros H. induction n as [|n IH].
  - change (Nat.iter 0 shr_1 mrs) with mrs. rewrite Nat2Z.inj_0, Z.pow_0_r, Z.div_1_r. reflexivity.
  - assert (P : 0 <= shr_m (Nat.iter n shr_1 mrs))
      by (rewrite IH; apply Z.div_pos; [lia|apply Z.pow_pos_nonneg; lia]).
    rewrite Nat.iter_succ, (shr_1_m _ P), IH, Z.div_div, Nat2Z.inj_succ, Z.pow_succ_r;
      try lia; try (apply Z.pow_pos_nonneg; lia); f_equal; lia.
Qed.

Lemma shr_record_of_loc_m (m : Z) (l : location) : shr_m (shr_record_of_loc m l) = m.
Proof. destruct l as [|[]]; reflexivity. Qed.

Lemma shr_fexp_spec (m e : Z) (l : location) : 0 <= m ->
  snd (shr_fexp prec emax m e l) = Z.max e (fexp prec emax (Zdigits2 m + e))
  /\ shr_m (fst (shr_fexp prec emax m e l)) = m / 2 ^ (snd (shr_fexp prec emax m e l) - e).
Proof.
  intros H. unfold shr_fexp, shr.
  destruct (fexp prec emax (Zdigits2 m + e) - e) as [|p|p] eqn:E; cbn [fst snd].
  - rewrite shr_record_of_loc_m, Z.sub_diag, Z.div_1_r. split; [lia|reflexivity].
  - rewrite iter_pos_nat, iter_shr_1, shr_record_of_loc_m, positive_nat_Z by
      (rewrite shr_record_of_loc_m; assumption).
    split; [lia|]. f_equal. f_equal. lia.
  - rewrite shr_record_of_loc_m, Z.sub_diag, Z.div_1_r. split; [lia|reflexivity].
Qed.

Lemma rne_bounds (m : Z) (l : location) : m <= round_nearest_even m l <= m + 1.
Proof. destruct l as [|[]]; cbn; try lia. destruct (Z.even m); lia. Qed.

(** The result of rounding [mx * 2^ex] (with [mx >= 0]) is never NaN; when
    finite its magnitude [digits + exponent] is at most
    [max (digits mx + ex) emin + 1], and it overflows only beyond that. *)
Lemma round_aux_spec (s : bool) (mx ex : Z) (lx : location) :
  0 <= mx ->
  binary_round_aux prec emax s mx ex lx = S754_zero s
  \/ (exists m e, binary_round_aux prec emax s mx ex lx = S754_finite s m e
                  /\ Zdigits2 (Zpos m) + e <= Z.max (Zdigits2 mx + ex) (-1074) + 1)
  \/ (binary_round_aux prec emax s mx ex lx = S754_infinity s
      /\ 971 < Z.max (Zdigits2 mx + ex) (-1074) + 1).
Proof.
  intros Hm. unfold binary_round_aux.
  pose proof (shr_fexp_spec mx ex lx Hm) as [He' Hm'].
  destruct (shr_fexp prec emax mx ex lx) as [mrs' e'] eqn:E1; cbn [fst snd] in *.
  rewrite fexp_eq in He'.
  pose proof (Zdigits2_nonneg mx Hm) as Dmx.
  assert (Hm1 : 0 <= shr_m mrs')
    by (rewrite Hm'; apply Z.div_pos; [lia|apply Z.pow_pos_nonneg; lia]).
  pose proof (rne_bounds (shr_m mrs') (loc_of_shr_record mrs')) as Hr.
  set (r := round_nearest_even (shr_m mrs') (loc_of_shr_record mrs')) in *.
  pose proof (shr_fexp_spec r e' loc_Exact ltac:(lia)) as [He'' Hm''].
  destruct (shr_fexp prec emax r e' loc_Exact) as [mrs'' e''] eqn:E2; cbn [fst snd] in *.
  rewrite fexp_eq in He''.
  assert (D1 : Zdigits2 (shr_m mrs') + e' <= Z.max (Zdigits2 mx + ex) e')
    by (rewrite Hm'; pose proof (Zdigits2_div_pow2 mx (e' - ex) Hm ltac:(lia)); lia).
  assert (D2 : Zdigits2 r <= Zdigits2 (shr_m mrs') + 1).
  { apply Z.le_trans with (Zdigits2 (shr_m mrs' + 1)).
    - apply Zdigits2_mono; lia.
    - apply Zdigits2_succ; lia. }
  assert (D3 : Zdigits2 (shr_m mrs'') + e'' <= Z.max (Zdigits2 r + e') e'')
    by (rewrite Hm''; pose proof (Zdigits2_div_pow2 r (e'' - e') ltac:(lia) ltac:(lia)); lia).
  assert (Pos'' : 0 <= shr_m mrs'')
    by (rewrite Hm''; apply Z.div_pos; [lia|apply Z.pow_pos_nonneg; lia]).
  pose proof (Zdigits2_nonneg (shr_m mrs') Hm1).
  destruct (shr_m mrs'') as [|m|m] eqn:Em.
  - left; reflexivity.
  - destruct (e'' <=? emax - prec) eqn:Ee.
    + right; left. exists m, e''. split; [reflexivity|]. lia.
    + right; right. split; [reflexivity|]. apply Z.leb_gt in Ee. unfold emax, prec in Ee. lia.
  - lia.
Qed.

Lemma round_aux_not_nan (s : bool) (mx ex : Z) (lx : location) :
  0 <= mx -> binary_round_aux prec emax s mx ex lx <> S754_nan.
Proof.
  intros H. destruct (round_aux_spec s mx ex lx H) as [E|[[m [e [E _]]]|[E _]]];
    rewrite E; discriminate.
Qed.

Lemma shl_align_spec (p : positive) (e e' : Z) :
  Zdigits2 (Zpos (fst (shl_align p e e'))) + snd (shl_align p e e') = Zdigits2 (Zpos p) + e.
Proof.
  unfold shl_align. destruct (e' - e) as [|d|d] eqn:E; cbn [fst snd]; try reflexivity.
  rewrite iter_xO, Zdigits2_shift by lia. lia.
Qed.

Lemma round_spec (s : bool) (p : positive) (e : Z) :
  binary_round prec emax s p e = S754_zero s
  \/ (exists m e', binary_round prec emax s p e = S754_finite s m e'
                   /\ Zdigits2 (Zpos m) + e' <= Z.max (Zdigits2 (Zpos p) + e) (-1074) + 1)
  \/ (binary_round prec emax s p e = S754_infinity s
      /\ 971 < Z.max (Zdigits2 (Zpos p) + e) (-1074) + 1).
Proof.
  unfold binary_round.
  pose proof (shl_align_spec p e (fexp prec emax (Zpos (digits2_pos p) + e))) as H.
  destruct (shl_align p e _) as [mz ez]; cbn [fst snd] in H. rewrite <- H.
  apply round_aux_spec. lia.
Qed.

Lemma normalize_not_nan (z e : Z) (b : bool) : binary_normalize prec emax z e b <> S754_nan.
Proof.
  unfold binary_normalize. destruct z as [|p|p]; [discriminate|
    destruct (round_spec false p e) as [E|[[m [e' [E _]]]|[E _]]]; rewrite E; discriminate|];
    destruct (round_spec true p e) as [E|[[m [e' [E _]]]|[E _]]]; rewrite E; discriminate.
Qed.

Lemma fmul_not_nan (x y : num) :
  is_finite x = true -> is_finite y = true -> fmul x y <> S754_nan.
Proof.
  destruct x as [sx|sx| |sx mx ex], y as [sy|sy| |sy my ey]; cbn; try discriminate.
  intros _ _. apply round_aux_not_nan. lia.
Qed.

Lemma fadd_not_nan (x y : num) :
  is_finite x = true -> y <> S754_nan -> fadd x y <> S754_nan.
Proof.
  destruct x as [sx|sx| |sx mx ex], y as [sy|sy| |sy my ey]; cbn; try discriminate;
    try (intros; congruence).
  - destruct sx, sy; discriminate.
  - intros _ _. apply normalize_not_nan.
Qed.

Lemma shr_fexp_exact (m : positive) (e : Z) : Zdigits2 (Zpos m) = 53 -> -1074 <= e ->
  shr_fexp prec emax (Zpos m) e loc_Exact
  = ({| shr_m := Zpos m; shr_r := false; shr_s := false |}, e).
Proof.
  intros H He. unfold shr_fexp. rewrite H, fexp_eq.
  replace (Z.max (53 + e - 53) (-1074) - e) with 0 by lia. reflexivity.
Qed.

Lemma round_aux_exact (s : bool) (m : positive) (e : Z) :
  Zdigits2 (Zpos m) = 53 -> -1074 <= e <= 971 ->
  binary_round_aux prec emax s (Zpos m) e loc_Exact = S754_finite s m e.
Proof.
  intros H He. unfold binary_round_aux. rewrite shr_fexp_exact by lia.
  cbn [shr_m loc_of_shr_record round_nearest_even].
  rewrite shr_fexp_exact by lia. cbn [shr_m].
  replace (e <=? emax - prec) with true by (symmetry; apply Z.leb_le; unfold emax, prec; lia).
  reflexivity.
Qed.

(** Integers below [2^53] are represented exactly, with a 53-bit mantissa. *)
Lemma of_Z_exact (z : Z) : 0 < z < 2 ^ 53 ->
  exists m, of_Z z = S754_finite false m (Zdigits2 z - 53)
            /\ Zpos m = z * 2 ^ (53 - Zdigits2 z) /\ Zdigits2 (Zpos m) = 53.
Proof.
  intros H. destruct z as [|p|p]; try lia.
  assert (Hd : 1 <= Zdigits2 (Zpos p) <= 53).
  { split; [cbn; lia|]. apply Zdigits2_le; lia. }
  unfold of_Z, binary_normalize, binary_round.
  change (Zpos (digits2_pos p)) with (Zdigits2 (Zpos p)). rewrite fexp_eq.
  replace (Z.max (Zdigits2 (Zpos p) + 0 - 53) (-1074)) with (Zdigits2 (Zpos p) - 53) by lia.
  unfold shl_align.
  destruct (Zdigits2 (Zpos p) - 53 - 0) as [|d|d] eqn:E; try lia.
  - exists p. rewrite round_aux_exact by lia.
    replace (53 - Zdigits2 (Zpos p)) with 0 by lia.
    split; [f_equal; lia|split; lia].
  - assert (Hq : Zdigits2 (Zpos (Pos.iter xO p d)) = 53)
      by (rewrite iter_xO, Zdigits2_shift by lia; lia).
    exists (Pos.iter xO p d). rewrite round_aux_exact by lia.
    split; [reflexivity|]. split; [|exact Hq].
    rewrite iter_xO. f_equal. f_equal. lia.
Qed.

Lemma Zdigits2_sub_le (a b : Z) : 0 <= a -> 0 <= b ->
  Zdigits2 (Z.abs (a - b)) <= Z.max (Zdigits2 a) (Zdigits2 b).
Proof.
  intros Ha Hb. destruct (Z.le_ge_cases a b).
  - apply Z.le_trans with (Zdigits2 b); [apply Zdigits2_mono; lia|lia].
  - apply Z.le_trans with (Zdigits2 a); [apply Zdigits2_mono; lia|lia].
Qed.

(** The difference of two positive finite numbers of moderate magnitude is finite. *)
Lemma fsub_pos_finite (mx my : positive) (ex ey : Z) :
  Z.max (Zdigits2 (Zpos mx) + ex) (Zdigits2 (Zpos my) + ey) <= 969 ->
  is_finite (fsub (S754_finite false mx ex) (S754_finite false my ey)) = true.
Proof.
  intros H. unfold fsub. cbn [SFsub SFadd SFopp negb].
  pose proof (shl_align_spec mx ex (Z.min ex ey)) as A1.
  pose proof (shl_align_spec my ey (Z.min ex ey)) as A2.
  assert (S1 : snd (shl_align mx ex (Z.min ex ey)) = Z.min ex ey).
  { unfold shl_align. destruct (Z.min ex ey - ex) eqn:E; cbn; lia. }
  assert (S2 : snd (shl_align my ey (Z.min ex ey)) = Z.min ex ey).
  { unfold shl_align. destruct (Z.min ex ey - ey) eqn:E; cbn; lia. }
  rewrite S1 in A1; rewrite S2 in A2.
  set (a := Zpos (fst (shl_align mx ex (Z.min ex ey)))) in *.
  set (b := Zpos (fst (shl_align my ey (Z.min ex ey)))) in *.
  cbn [cond_Zopp].
  pose proof (Zdigits2_sub_le a b ltac:(unfold a; lia) ltac:(unfold b; lia)) as HD.
  unfold binary_normalize.
  destruct (a - b) as [|p|p] eqn:E; [reflexivity| |].
  - cbn [Z.abs] in HD.
    destruct (round_spec false p (Z.min ex ey)) as [R|[[m [e [R _]]]|[R B]]];
      rewrite R; try reflexivity; lia.
  - cbn [Z.abs] in HD.
    destruct (round_spec true p (Z.min ex ey)) as [R|[[m [e [R _]]]|[R B]]];
      rewrite R; try reflexivity; lia.
Qed.

(** Digits of a quotient. *)
Lemma Zdigits2_div (a b : Z) : 0 <= a -> 0 < b ->
  Zdigits2 (a / b) <= Z.max (Zdigits2 a - Zdigits2 b + 1) 0.
Proof.
  intros Ha Hb.
  pose proof (Zdigits2_lt a Ha). pose proof (Zdigits2_ge b Hb).
  pose proof (Zdigits2_nonneg a Ha). pose proof (Zdigits2_nonneg b ltac:(lia)).
  assert (Hq : 0 <= a / b) by (apply Z.div_pos; lia).
  destruct (Z.eq_dec (a / b) 0) as [E|E]; [rewrite E; cbn; lia|].
  assert (Hb1 : 1 <= Zdigits2 b) by (destruct b; cbn in *; lia).
  assert (K : a / b < 2 ^ (Zdigits2 a - Zdigits2 b + 1)).
  { apply Z.div_lt_upper_bound; [lia|].
    destruct (Z_lt_le_dec (Zdigits2 a - Zdigits2 b + 1) 0) as [L|L].
    - exfalso. assert (a < b).
      { apply Z.lt_le_trans with (2 ^ Zdigits2 a); [lia|].
        apply Z.le_trans with (2 ^ (Zdigits2 b - 1)); [apply Z.pow_le_mono_r; lia|lia]. }
      rewrite Z.div_small in E; lia.
    - apply Z.lt_le_trans with (2 ^ Zdigits2 a); [lia|].
      replace (Zdigits2 a) with ((Zdigits2 b - 1) + (Zdigits2 a - Zdigits2 b + 1)) at 1 by lia.
      rewrite Z.pow_add_r by lia. apply Z.mul_le_mono_nonneg_r; [apply Z.pow_nonneg; lia|lia]. }
  destruct (Z_lt_le_dec (Zdigits2 a - Zdigits2 b + 1) 0) as [L|L].
  - rewrite Z.pow_neg_r in K by lia. lia.
  - pose proof (Zdigits2_le (a / b) _ Hq L K). lia.
Qed.

(** The quotient of two positive finite numbers: never NaN, and its
    magnitude is at most one more than the difference of the operands'. *)
Lemma fdiv_pos_spec (mx my : positive) (ex ey : Z) :
  let T := Z.max (Zdigits2 (Zpos mx) + ex - (Zdigits2 (Zpos my) + ey) + 1) (-1074) in
  fdiv (S754_finite false mx ex) (S754_finite false my ey) = S754_zero false
  \/ (exists m e, fdiv (S754_finite false mx ex) (S754_finite false my ey) = S754_finite false m e
                  /\ Zdigits2 (Zpos m) + e <= Z.max T (-1074) + 1)
  \/ (fdiv (S754_finite false mx ex) (S754_finite false my ey) = S754_infinity false
      /\ 971 < Z.max T (-1074) + 1).
Proof.
  intros T. unfold fdiv, SFdiv. cbn [xorb].
  unfold SFdiv_core_binary. rewrite fexp_eq.
  set (e' := Z.min (Z.max (Zdigits2 (Zpos mx) + ex - (Zdigits2 (Zpos my) + ey) - 53) (-1074)) (ex - ey)).
  set (s := ex - ey - e').
  assert (Hs : 0 <= s) by (unfold s, e'; lia).
  assert (Hm' : match s with Zpos _ => Z.shiftl (Zpos mx) s | Z0 => Zpos mx | Zneg _ => 0 end
                = Zpos mx * 2 ^ s).
  { destruct s as [|q|q] eqn:Es; [lia| |lia]. rewrite Z.shiftl_mul_pow2 by lia. reflexivity. }
  rewrite Hm'. cbv zeta.
  assert (Hq := Z.div_eucl_eq (Zpos mx * 2 ^ s) (Zpos my) ltac:(lia)).
  unfold Z.div, Z.modulo in *.
  destruct (Z.div_eucl (Zpos mx * 2 ^ s) (Zpos my)) as [q r] eqn:Ed.
  cbv beta iota.
  pose proof (Zdigits2_div (Zpos mx * 2 ^ s) (Zpos my) ltac:(nia) ltac:(lia)) as HD.
  unfold Z.div in HD. rewrite Ed in HD. cbn [fst] in HD.
  rewrite Zdigits2_shift in HD by lia.
  assert (Hq0 : 0 <= q).
  { pose proof (Z.div_pos (Zpos mx * 2 ^ s) (Zpos my)) as P. unfold Z.div in P.
    rewrite Ed in P. apply P; [nia|lia]. }
  destruct (round_aux_spec false q e' (new_location (Zpos my) r) Hq0)
    as [R|[[m [e [R B]]]|[R B]]].
  - left; exact R.
  - right; left. exists m, e. split; [exact R|]. unfold T, s in *. lia.
  - right; right. split; [exact R|]. unfold T, s in *. lia.
Qed.

(** The product of two positive finite numbers. *)
Lemma fmul_pos_spec (mx my : positive) (ex ey : Z) :
  let T := Zdigits2 (Zpos mx) + ex + (Zdigits2 (Zpos my) + ey) in
  fmul (S754_finite false mx ex) (S754_finite false my ey) = S754_zero false
  \/ (exists m e, fmul (S754_finite false mx ex) (S754_finite false my ey) = S754_finite false m e
                  /\ Zdigits2 (Zpos m) + e <= Z.max T (-1074) + 1)
  \/ (fmul (S754_finite false mx ex) (S754_finite false my ey) = S754_infinity false
      /\ 971 < Z.max T (-1074) + 1).
Proof.
  intros T. unfold fmul, SFmul. cbn [xorb].
  pose proof (Zdigits2_mul (Zpos mx) (Zpos my) ltac:(lia) ltac:(lia)) as HD.
  rewrite <- Pos2Z.inj_mul in HD.
  destruct (round_aux_spec false (Zpos (mx * my)) (ex + ey) loc_Exact ltac:(lia))
    as [R|[[m [e [R B]]]|[R B]]].
  - left; exact R.
  - right; left. exists m, e. split; [exact R|]. unfold T. lia.
  - right; right. split; [exact R|]. unfold T. lia.
Qed.

End Binary64.


(** Evaluates the string literals of a goal, so that texts assembled from
    different pieces can be compared. *)
Ltac eval_lits :=
  repeat match goal with
  | |- context [u ?s] => let v := eval vm_compute in (u s) in change (u s) with v
  end.

Lemma palette_fold (l : list (jstr * jstr)) (b t : jstr) :
  fold_left palette_entry l (b, t)
  = (b ++ flat_map PaletteSpec.color_properties l, t ++ flat_map PaletteSpec.color_classes l).
Proof.
  revert b t; induction l as [|[name value] l IH]; intros b t; cbn [fold_left flat_map].
  - rewrite !app_nil_r; reflexivity.
  - cbn [palette_entry]. rewrite IH. f_equal.
    + unfold PaletteSpec.color_properties, PaletteSpec.property,
        PaletteSpec.adjust, LIGHTEN_STRENGTH, DARKEN_STRENGTH.
      rewrite <- !app_assoc. eval_lits. cbn [app]. reflexivity.
    + unfold PaletteSpec.color_classes, PaletteSpec.utility, PaletteSpec.var.
      cbn [fst]. rewrite <- !app_assoc. eval_lits. cbn [app]. reflexivity.
Qed.

Lemma dark_fold (l : list (jstr * jstr)) (r : jstr) :
  fold_left dark_entry l r = r ++ flat_map PaletteSpec.dark_properties l.
Proof.
  revert r; induction l as [|[name value] l IH]; intros r; cbn [fold_left flat_map].
  - rewrite app_nil_r; reflexivity.
  - cbn [dark_entry]. rewrite IH.
    unfold PaletteSpec.dark_properties, PaletteSpec.property,
      PaletteSpec.adjust, LIGHTEN_STRENGTH, DARKEN_STRENGTH.
    rewrite <- !app_assoc. eval_lits. cbn [app]. reflexivity.
Qed.

(** C3: for every colors mapping and dark-mode flag, the palette is the
    [:root] block with the three custom properties of each color in mapping
    order (base, adjust(base, +0.18), adjust(base, -0.18)), then the seven
    utility classes of each color, then, exactly when darkMode is true, one
    [prefers-color-scheme: dark] block with darker = adjust(base, -0.18*1.2),
    adjust(base, 0.18*0.8) and adjust(darker, -0.08) per color and the fixed
    body override. *)
Theorem generateColorPalette_spec (colors : list (jstr * jstr)) (darkMode : bool) :
  generateColorPalette colors darkMode = PaletteSpec.palette colors darkMode.
Proof.
  unfold generateColorPalette, PaletteSpec.palette.
  rewrite palette_fold. cbv beta iota zeta.
  destruct darkMode; [rewrite dark_fold|]; rewrite <- !app_assoc; eval_lits;
    cbn [app]; reflexivity.
Qed.

(** ** Strings *)

Lemma jstr_eqb_eq (a b : jstr) : jstr_eqb a b = true <-> a = b.
Proof.
  revert b; induction a as [|x a IH]; intros [|y b]; cbn; split; try congruence.
  - rewrite andb_true_iff, N.eqb_eq, IH. intros [-> ->]; reflexivity.
  - intros H; injection H as -> ->. rewrite andb_true_iff, N.eqb_eq, IH. auto.
Qed.

Lemma includes_In (l : list jstr) (x : jstr) : includes l x = true <-> In x l.
Proof.
  unfold includes. rewrite existsb_exists. split.
  - intros [y [Hy E]]. apply jstr_eqb_eq in E. subst; assumption.
  - intros H. exists x. split; [assumption|]. apply jstr_eqb_eq; reflexivity.
Qed.

Lemma join_nil_concat (l : list jstr) : join [] l = List.concat l.
Proof.
  induction l as [|x r IH]; [reflexivity|].
  destruct r as [|y r].
  - cbn. rewrite app_nil_r; reflexivity.
  - change (join [] (x :: y :: r)) with (x ++ [] ++ join [] (y :: r)).
    rewrite IH. reflexivity.
Qed.

(** ** Class tokens *)

Lemma take_drop_while (p : N -> bool) (s : jstr) : take_while p s ++ drop_while p s = s.
Proof. induction s as [|c s IH]; cbn; [reflexivity|]. destruct (p c); cbn; congruence. Qed.

Lemma drop_while_length (p : N -> bool) (s : jstr) :
  (List.length (drop_while p s) <= List.length s)%nat.
Proof. induction s as [|c s IH]; cbn; [lia|]. destruct (p c); cbn; lia. Qed.

Lemma take_while_all (p : N -> bool) (s : jstr) c : In c (take_while p s) -> p c = true.
Proof.
  induction s as [|d s IH]; cbn; [tauto|]. destruct (p d) eqn:E; cbn; [|tauto].
  intros [<-|H]; auto.
Qed.

Lemma dot_tokens_app_nodot (x y : jstr) :
  (forall c, In c x -> c <> 46%N) -> ClassSpec.dot_tokens (x ++ y) = ClassSpec.dot_tokens y.
Proof.
  induction x as [|c x IH]; intros H; cbn; [reflexivity|].
  replace (N.eqb c 46) with false; [cbn; apply IH; intros; apply H; right; assumption|].
  symmetry; apply N.eqb_neq, H; left; reflexivity.
Qed.

Lemma class_matches_dot_tokens (fuel : nat) (s : jstr) :
  (List.length s <= fuel)%nat -> class_matches fuel s = ClassSpec.dot_tokens s.
Proof.
  revert s; induction fuel as [|f IH]; intros s Hs.
  - destruct s; cbn in *; [reflexivity|lia].
  - destruct s as [|c r]; [reflexivity|]. cbn in Hs.
    cbn [class_matches ClassSpec.dot_tokens].
    destruct (N.eqb_spec c 46) as [->|Hc].
    + destruct (take_while is_cls r) as [|t run] eqn:E; cbn [app].
      * apply IH; lia.
      * rewrite IH by (pose proof (drop_while_length is_cls r); lia).
        rewrite <- (take_drop_while is_cls r) at 2. rewrite E.
        rewrite dot_tokens_app_nodot; [reflexivity|].
        intros d Hd He; subst d.
        assert (Hin : In 46%N (take_while is_cls r)) by (rewrite E; exact Hd).
        apply take_while_all in Hin. discriminate Hin.
    + apply IH; lia.
Qed.

Lemma undup_In (l : list jstr) x : In x (undup l) <-> In x l.
Proof.
  induction l as [|y l IH]; cbn; [tauto|].
  destruct (includes l y) eqn:E.
  - rewrite IH. apply includes_In in E. split; [auto|]. intros [<-|H]; auto.
  - cbn. rewrite IH. tauto.
Qed.

Lemma undup_NoDup (l : list jstr) : NoDup (undup l).
Proof.
  induction l as [|y l IH]; cbn; [constructor|].
  destruct (includes l y) eqn:E; [assumption|].
  constructor; [|assumption]. rewrite undup_In. intros H.
  apply includes_In in H. congruence.
Qed.

(** ** Spacing values *)

Lemma parseUnit_no_match (v : jsval) :
  unit_match (js_String v) = None -> parseUnit v = {| number := zero; unit := u "px" |}.
Proof. intros H. unfold parseUnit. rewrite H. reflexivity. Qed.

Lemma parseUnit_0px : parseUnit (JStr (u "0px")) = {| number := zero; unit := u "px" |}.
Proof. vm_compute. reflexivity. Qed.

Lemma spacingValue_ext (b b' : jsval) (m : num) :
  parseUnit b = parseUnit b' -> spacingValue b m = spacingValue b' m.
Proof. intros H. unfold spacingValue. rewrite H. reflexivity. Qed.

Lemma generateLayout_ext (th th' : Theme) :
  layout th = layout th' ->
  parseUnit (js_or (baseUnit (spacing th)) (JStr (u "16px")))
  = parseUnit (js_or (baseUnit (spacing th')) (JStr (u "16px"))) ->
  generateLayout th = generateLayout th'.
Proof. intros H1 H2. unfold generateLayout. rewrite H1, H2. reflexivity. Qed.

Lemma generateSpacingUtilities_ext (th th' : Theme) :
  breakpoints (layout th) = breakpoints (layout th') ->
  parseUnit (js_or (baseUnit (spacing th)) (JStr (u "16px")))
  = parseUnit (js_or (baseUnit (spacing th')) (JStr (u "16px"))) ->
  generateSpacingUtilities th = generateSpacingUtilities th'.
Proof.
  intros H1 H2. unfold generateSpacingUtilities, spacing_class, spacingValue.
  cbv zeta. rewrite H1, H2. reflexivity.
Qed.

Lemma generateComponents_ext (comps : list jstr) (th th' : Theme) :
  transition th = transition th' ->
  parseUnit (baseUnit (spacing th)) = parseUnit (baseUnit (spacing th')) ->
  generateComponents comps th = generateComponents comps th'.
Proof.
  intros H1 H2. unfold generateComponents, button_css, card_css, alert_css, spacingValue.
  cbv zeta. rewrite H1, H2. reflexivity.
Qed.

(** ** The build *)

Lemma build_ok_files (config : Config) (w : World) :
  snd (build config w) = ExitOk ->
  files (fst (build config w)) cssPath = Some (applyAutoprefix (generateCss config))
  /\ files (fst (build config w)) minPath
     = Some (minifyCSS (applyAutoprefix (generateCss config))).
Proof.
  unfold build. cbv zeta.
  set (p := applyAutoprefix (generateCss config)).
  unfold writeFile. destruct (write_result w cssPath); [|discriminate|discriminate].
  cbn [write_result store].
  destruct (write_result w minPath); [|discriminate|discriminate].
  intros _. cbn [fst files log store].
  replace (jstr_eqb cssPath minPath) with false by reflexivity.
  replace (jstr_eqb cssPath cssPath) with true by reflexivity.
  replace (jstr_eqb minPath minPath) with true by reflexivity.
  split; reflexivity.
Qed.

Lemma components_blocks (comps : list jstr) (th : Theme) :
  generateComponents comps th = BuildSpec.component_blocks comps th.
Proof.
  unfold generateComponents, BuildSpec.component_blocks, BuildSpec.block_if. cbv zeta.
  destruct (includes comps (u "button")), (includes comps (u "card")),
    (includes comps (u "alert")); cbv iota;
    rewrite ?app_nil_l, ?app_nil_r, <- ?app_assoc; reflexivity.
Qed.

Lemma utility_blocks (config : Config) :
  generateUtilityCss config = BuildSpec.utility_blocks config.
Proof.
  unfold generateUtilityCss, BuildSpec.utility_blocks, BuildSpec.block_if,
    BuildSpec.color_border_block. cbv zeta.
  rewrite join_nil_concat, flat_map_concat_map, map_map.
  destruct (includes (utilities config) (u "spacing")), (includes (utilities config) (u "flex")),
    (includes (utilities config) (u "color")), (includes (utilities config) (u "image")); cbv iota;
    rewrite ?app_nil_l, ?app_nil_r, <- ?app_assoc; reflexivity.
Qed.

Lemma generateCss_readable (config : Config) :
  generateCss config = BuildSpec.readable config.
Proof.
  unfold generateCss, BuildSpec.readable. cbv zeta.
  rewrite components_blocks, utility_blocks, <- !app_assoc. reflexivity.
Qed.

(** ** Claims about the build *)

(** C1: the build is deterministic: two successful runs of [build] on the
    same configuration, from any two worlds (for instance a run and a rerun
    on the world the first run left), write byte-identical readable and
    minified stylesheets. *)
Theorem build_deterministic (config : Config) (w1 w2 : World)
  (H1 : snd (build config w1) = ExitOk) (H2 : snd (build config w2) = ExitOk) :
  files (fst (build config w1)) cssPath = files (fst (build config w2)) cssPath
  /\ files (fst (build config w1)) minPath = files (fst (build config w2)) minPath.
Proof.
  destruct (build_ok_files config w1 H1) as [A B], (build_ok_files config w2 H2) as [C D].
  rewrite A, B, C, D. split; reflexivity.
Qed.

Lemma build_deterministic_witness :
  snd (build Examples.config0 Examples.world0) = ExitOk
  /\ snd (build Examples.config0 (fst (build Examples.config0 Examples.world0))) = ExitOk
  /\ files (fst (build Examples.config0 Examples.world0)) cssPath
     = files (fst (build Examples.config0 (fst (build Examples.config0 Examples.world0)))) cssPath.
Proof.
  assert (H1 : snd (build Examples.config0 Examples.world0) = ExitOk) by (vm_compute; reflexivity).
  assert (H2 : snd (build Examples.config0 (fst (build Examples.config0 Examples.world0))) = ExitOk)
    by (vm_compute; reflexivity).
  split; [exact H1|]. split; [exact H2|].
  exact (proj1 (build_deterministic Examples.config0 Examples.world0
                  (fst (build Examples.config0 Examples.world0)) H1 H2)).
Defined.

(** C8: after a successful build, the readable file holds the autoprefixed
    text, and the minified file the minified autoprefixed text (not the raw
    text), of the concatenation header comment, palette, typography, newline
    and layout, newline and the component blocks in the fixed component
    order button, card, alert (each present when listed), the utilities
    comment, and the utility blocks in the fixed order spacing, flex,
    color-border, image (each present when listed) followed by the
    transition utility. *)
Theorem build_outputs_fixed_sequence (config : Config) (w : World)
  (Hok : snd (build config w) = ExitOk) :
  files (fst (build config w)) cssPath = Some (applyAutoprefix (BuildSpec.readable config))
  /\ files (fst (build config w)) minPath
     = Some (minifyCSS (applyAutoprefix (BuildSpec.readable config))).
Proof. rewrite <- generateCss_readable. apply build_ok_files; assumption. Qed.

Lemma build_outputs_fixed_sequence_witness :
  snd (build Examples.config0 Examples.world0) = ExitOk
  /\ files (fst (build Examples.config0 Examples.world0)) cssPath
     = Some (applyAutoprefix (BuildSpec.readable Examples.config0)).
Proof.
  assert (H : snd (build Examples.config0 Examples.world0) = ExitOk) by (vm_compute; reflexivity).
  split; [exact H|].
  exact (proj1 (build_outputs_fixed_sequence Examples.config0 Examples.world0 H)).
Defined.

(** ** Claims about spacing values and parseUnit *)


(** C10 (counterexample): [.px] contains no digit but matches
    [([0-9.]+)([a-z%]+)], so its number is NaN; an empty base unit falls
    back to [16px] in the layout. *)
Lemma parseUnit_dot_and_empty_base :
  parseUnit (JStr (u ".px")) = {| number := S754_nan; unit := u "px" |}
  /\ spacingValue (JStr (u ".px")) (lit "1") = u "NaNpx"
  /\ prefixb (u ".container {\n  max-width: 1200px;\n  margin: 0 auto;\n  padding: 0 16px;\n}")
       (generateLayout (with_base Examples.theme0 (JStr []))) = true.
Proof. split; [|split]; vm_compute; reflexivity. Qed.

(** C10 (amended): when the string form of [spacing.baseUnit] has no match
    of [([0-9.]+)([a-z%]+)], parseUnit returns [{number: 0, unit: 'px'}];
    every spacing value of the scale is then [0px], the components are
    generated as for the base unit [0px], and the layout and the spacing
    utilities as for [0px] when the value is truthy and as for [16px] when it
    is falsy (empty or absent). *)
Theorem baseUnit_without_match (th : Theme) (comps : list jstr)
  (Hv : unit_match (js_String (baseUnit (spacing th))) = None) :
  parseUnit (baseUnit (spacing th)) = {| number := zero; unit := u "px" |}
  /\ (forall step, In step scale -> spacingValue (baseUnit (spacing th)) step = u "0px")
  /\ generateComponents comps th = generateComponents comps (with_base th (JStr (u "0px")))
  /\ (let fallback :=
        if truthy (baseUnit (spacing th)) then JStr (u "0px") else JStr (u "16px") in
      generateLayout th = generateLayout (with_base th fallback)
      /\ generateSpacingUtilities th = generateSpacingUtilities (with_base th fallback)).
Proof.
  pose proof (parseUnit_no_match _ Hv) as Hpu.
  assert (H0 : parseUnit (baseUnit (spacing th)) = parseUnit (JStr (u "0px")))
    by (rewrite Hpu; symmetry; apply parseUnit_0px).
  split; [exact Hpu|]. split; [|split].
  - intros step Hin. rewrite (spacingValue_ext _ _ step H0).
    unfold scale in Hin.
    repeat (destruct Hin as [<-|Hin]; [vm_compute; reflexivity|]). destruct Hin.
  - apply generateComponents_ext; [reflexivity|exact H0].
  - cbv zeta.
    destruct (truthy (baseUnit (spacing th))) eqn:T;
      (split; [apply generateLayout_ext | apply generateSpacingUtilities_ext]);
      try reflexivity; cbn [with_base spacing baseUnit]; unfold js_or; rewrite T;
      try (replace (truthy (JStr (u "0px"))) with true by reflexivity; exact H0);
      reflexivity.
Qed.

Lemma baseUnit_without_match_witness :
  unit_match (js_String (baseUnit (spacing (with_base Examples.theme0 (JStr (u "auto")))))) = None
  /\ parseUnit (baseUnit (spacing (with_base Examples.theme0 (JStr (u "auto")))))
     = {| number := zero; unit := u "px" |}.
Proof.
  assert (H : unit_match (js_String (baseUnit (spacing (with_base Examples.theme0 (JStr (u "auto"))))))
              = None) by (vm_compute; reflexivity).
  split; [exact H|].
  exact (proj1 (baseUnit_without_match (with_base Examples.theme0 (JStr (u "auto"))) [] H)).
Defined.

(** ** Claims about the autoprefixer, the minifier and the class count *)

(** C7: on [transition: all 0.3s ease;] the autoprefixer inserts the bare
    property name [-webkit-transition:], not a prefixed declaration: the
    text now reads as one declaration [-webkit-transition: transition: ...].
    The [display: flex] rule of the same table inserts complete
    declarations. *)
Theorem applyAutoprefix_bare_prefix :
  applyAutoprefix (u ".a { transition: all 0.3s ease; }")
  = u ".a { -webkit-transition:\n  transition: all 0.3s ease; }"
  /\ applyAutoprefix (u ".a { display: flex; }")
     = u ".a { display: -webkit-box;\n  display: -ms-flexbox;\n  display: flex;\n  display: flex; }".
Proof. split; vm_compute; reflexivity. Qed.

(** C6: the minifier leaves [;}] in its output for a doubled semicolon and
    is not idempotent there; a comment formed by removing another one also
    survives a first minification. *)
Theorem minifyCSS_not_idempotent :
  minifyCSS (u "a{b:c;;}") = u "a{b:c;}"
  /\ minifyCSS (u "a{b:c;}") = u "a{b:c}"
  /\ minifyCSS (u "//*a*/*b*/") = u "/*b*/"
  /\ minifyCSS (u "/*b*/") = [].
Proof. repeat split; vm_compute; reflexivity. Qed.

(** C9 (counterexample): the count includes dot tokens that are not class
    selectors ([.5em] in a value, [.config] and [.js] in the header comment)
    and counts escaped breakpoint classes by their prefix only. *)
Lemma countClasses_dot_tokens :
  countClasses (u "h1 { margin-bottom: 0.5em; }") = 1%nat
  /\ countClasses (u ".sm\\:col-6 { } .sm\\:col-12 { }") = 1%nat
  /\ countClasses header = 2%nat.
Proof. repeat split; vm_compute; reflexivity. Qed.

(** C9 (amended): countClasses returns the number of distinct texts matched
    by [\.[a-zA-Z0-9_-]+], that is of distinct tokens made of a dot and the
    maximal run of class characters after it, wherever they occur. *)
Theorem countClasses_distinct_tokens (css : jstr) :
  exists l, NoDup l /\ (forall x, In x l <-> In x (ClassSpec.dot_tokens css))
            /\ countClasses css = List.length l.
Proof.
  exists (undup (class_matches (List.length css) css)).
  split; [apply undup_NoDup|]. split; [|reflexivity].
  intros x. rewrite undup_In, class_matches_dot_tokens by lia. reflexivity.
Qed.

(** ** Layout *)

Lemma for_cols_flat_map (f n : nat) (cols : N) (body : N -> jstr) (css : jstr) :
  (S (N.to_nat cols) - n <= f)%nat ->
  for_cols f (N.of_nat n) cols body css
  = css ++ flat_map body (map N.of_nat (seq n (S (N.to_nat cols) - n))).
Proof.
  revert n css; induction f as [|f IH]; intros n css H.
  - cbn [for_cols]. replace (S (N.to_nat cols) - n)%nat with 0%nat by lia.
    cbn. rewrite app_nil_r. reflexivity.
  - cbn [for_cols]. destruct (N.of_nat n <=? cols)%N eqn:E.
    + apply N.leb_le in E.
      replace (S (N.to_nat cols) - n)%nat with (S (S (N.to_nat cols) - S n)) by lia.
      cbn [seq map flat_map].
      replace (N.of_nat n + 1)%N with (N.of_nat (S n)) by lia.
      rewrite IH by lia. rewrite app_assoc. reflexivity.
    + apply N.leb_gt in E.
      replace (S (N.to_nat cols) - n)%nat with 0%nat by lia.
      cbn. rewrite app_nil_r. reflexivity.
Qed.

Lemma for_cols_indices (cols : N) (body : N -> jstr) (css : jstr) :
  for_cols (N.to_nat cols) 1 cols body css = css ++ flat_map body (LayoutSpec.indices cols).
Proof.
  change 1%N with (N.of_nat 1). rewrite for_cols_flat_map by lia.
  unfold LayoutSpec.indices. replace (S (N.to_nat cols) - 1)%nat with (N.to_nat cols) by lia.
  reflexivity.
Qed.

Lemma fold_left_flat_map {A : Type} (f : jstr -> A -> jstr) (g : A -> jstr)
  (l : list A) (css : jstr) :
  (forall c x, f c x = c ++ g x) -> fold_left f l css = css ++ flat_map g l.
Proof.
  intros H. revert css; induction l as [|x l IH]; intros css; cbn.
  - rewrite app_nil_r. reflexivity.
  - rewrite IH, H, app_assoc. reflexivity.
Qed.

Lemma generateLayout_grid (th : Theme) : generateLayout th = LayoutSpec.grid th.
Proof.
  assert (E1 : forall i, col_line (cols (layout th)) i
               = LayoutSpec.column_rule (u ".col-" ++ num_N i) (LayoutSpec.pct (cols (layout th)) i))
    by (intros i; unfold col_line, LayoutSpec.column_rule; rewrite <- !app_assoc; reflexivity).
  unfold generateLayout, LayoutSpec.grid, LayoutSpec.head, LayoutSpec.columns.
  cbv zeta. rewrite for_cols_indices, (flat_map_ext _ _ E1).
  rewrite (fold_left_flat_map _ (LayoutSpec.breakpoint_block (cols (layout th)))).
  - rewrite <- !app_assoc. reflexivity.
  - intros c [prefix size]. rewrite for_cols_indices.
    assert (E2 : forall i, bp_col_line prefix (cols (layout th)) i
                 = LayoutSpec.column_rule (u "  ." ++ prefix ++ u "\\:col-" ++ num_N i)
                     (LayoutSpec.pct (cols (layout th)) i))
      by (intros i; unfold bp_col_line, LayoutSpec.column_rule; rewrite <- !app_assoc; reflexivity).
    rewrite (flat_map_ext _ _ E2).
    unfold LayoutSpec.breakpoint_block. cbn [fst snd]. rewrite <- !app_assoc. reflexivity.
Qed.

Section Percentages.
Local Open Scope Z_scope.

Lemma dec_digits_aux_digits (fuel : nat) (z : Z) (acc : jstr) :
  forallb is_digit acc = true -> forallb is_digit (dec_digits_aux fuel z acc) = true.
Proof.
  revert z acc; induction fuel as [|f IH]; intros z acc H; cbn [dec_digits_aux]; [exact H|].
  assert (D : forallb is_digit ((48 + Z.to_N (z mod 10))%N :: acc) = true).
  { cbn [forallb]. rewrite H, andb_true_r. pose proof (Z.mod_pos_bound z 10 ltac:(lia)).
    unfold is_digit. apply andb_true_intro; split; apply N.leb_le; lia. }
  destruct (z <? 10); [exact D|apply IH; exact D].
Qed.

Lemma dec_digits_aux_length (fuel : nat) (z : Z) (acc : jstr) :
  (List.length acc <= List.length (dec_digits_aux fuel z acc))%nat.
Proof.
  revert z acc; induction fuel as [|f IH]; intros z acc; cbn [dec_digits_aux]; [lia|].
  destruct (z <? 10); [cbn; lia|]. specialize (IH (z / 10) ((48 + Z.to_N (z mod 10))%N :: acc)).
  cbn [List.length] in IH. lia.
Qed.

Lemma dec_digits_shape (z : Z) :
  forallb is_digit (dec_digits z) = true /\ (1 <= List.length (dec_digits z))%nat.
Proof.
  unfold dec_digits. split; [apply dec_digits_aux_digits; reflexivity|].
  cbn [dec_digits_aux]. destruct (z <? 10); [cbn; lia|].
  pose proof (dec_digits_aux_length (Z.to_nat (Z.log2 z)) (z / 10)
                [(48 + Z.to_N (z mod 10))%N]) as H. cbn [List.length] in H. lia.
Qed.

(** [toFixed(4)] of a non-negative value below [10^21] always has four
    fraction digits. *)
Lemma to_fixed_pos_four (a b : Z) : LayoutSpec.four_decimals (to_fixed_pos 4 a b).
Proof.
  unfold to_fixed_pos. cbv beta zeta iota.
  destruct (dec_digits_shape ((2 * a * 10 ^ Z.of_nat 4 + b) / (2 * b))) as [Dg Len].
  set (m := dec_digits _) in *.
  set (m' := if Nat.leb (List.length m) 4 then zeros (S 4 - List.length m) ++ m else m).
  assert (Hm' : forallb is_digit m' = true /\ (5 <= List.length m')%nat).
  { unfold m'. destruct (Nat.leb (List.length m) 4) eqn:E.
    - apply Nat.leb_le in E. rewrite forallb_app, length_app, Dg, andb_true_r.
      unfold zeros. rewrite repeat_length. split; [|lia].
      apply forallb_forall. intros x Hx. apply repeat_spec in Hx. subst x. reflexivity.
    - apply Nat.leb_gt in E. split; [exact Dg|lia]. }
  destruct Hm' as [Dg' Len'].
  exists (firstn (List.length m' - 4) m'), (skipn (List.length m' - 4) m').
  rewrite <- (firstn_skipn (List.length m' - 4) m'), forallb_app in Dg'.
  apply andb_prop in Dg'. destruct Dg' as [D1 D2].
  split; [reflexivity|]. split; [|split; [|split; assumption]].
  - intros E. apply (f_equal (@List.length N)) in E. rewrite length_firstn in E. cbn in E. lia.
  - rewrite length_skipn. lia.
Qed.

Lemma lit_100 : lit "100" = S754_finite false 7036874417766400 (-46).
Proof. vm_compute. reflexivity. Qed.

(** [(i / cols) * 100] for [1 <= i <= cols < 2^53] is zero or a positive
    finite number below [2^10]. *)
Lemma pct_value_shape (cols i : N) :
  (1 <= i <= cols)%N -> (cols < 2 ^ 53)%N ->
  fmul (fdiv (of_Z (Z.of_N i)) (of_Z (Z.of_N cols))) (lit "100") = S754_zero false
  \/ exists m e, fmul (fdiv (of_Z (Z.of_N i)) (of_Z (Z.of_N cols))) (lit "100")
                 = S754_finite false m e /\ Zdigits2 (Zpos m) + e <= 10.
Proof.
  intros Hi Hc.
  assert (Hc' : Z.of_N cols < 2 ^ 53) by (change (2 ^ 53) with (Z.of_N (2 ^ 53)); lia).
  destruct (of_Z_exact (Z.of_N i) ltac:(lia)) as [mi [Ei [_ Di]]].
  destruct (of_Z_exact (Z.of_N cols) ltac:(lia)) as [mc [Ec [_ Dc]]].
  pose proof (Zdigits2_mono (Z.of_N i) (Z.of_N cols) ltac:(lia)) as Mono.
  rewrite Ei, Ec, lit_100.
  destruct (fdiv_pos_spec mi mc (Zdigits2 (Z.of_N i) - 53) (Zdigits2 (Z.of_N cols) - 53))
    as [R|[[m [e [R B]]]|[R B]]]; rewrite R.
  - left. reflexivity.
  - destruct (fmul_pos_spec m 7036874417766400 e (-46)) as [R2|[[m2 [e2 [R2 B2]]]|[R2 B2]]];
      rewrite R2; change (Zdigits2 (Zpos 7036874417766400)) with 53 in *.
    + left. reflexivity.
    + right. exists m2, e2. split; [reflexivity|lia].
    + lia.
  - lia.
Qed.

Lemma to_fixed_four (x : num) :
  (x = S754_zero false \/ exists m e, x = S754_finite false m e /\ Zdigits2 (Zpos m) + e <= 10) ->
  LayoutSpec.four_decimals (to_fixed x 4).
Proof.
  intros [->|[m [e [-> B]]]]; [apply to_fixed_pos_four|].
  unfold to_fixed, ratio_of.
  pose proof (Zdigits2_lt (Zpos m) ltac:(lia)) as Lt.
  assert (P10 : 2 ^ 10 < 10 ^ 21) by reflexivity.
  destruct (0 <=? e) eqn:E.
  - apply Z.leb_le in E.
    replace (10 ^ 21 * 1 <=? Zpos m * 2 ^ e) with false; [apply to_fixed_pos_four|].
    symmetry. apply Z.leb_gt.
    assert (Zpos m * 2 ^ e < 2 ^ (Zdigits2 (Zpos m) + e)).
    { rewrite Z.pow_add_r by (try apply Zdigits2_nonneg; lia).
      apply Z.mul_lt_mono_pos_r; [apply Z.pow_pos_nonneg; lia|exact Lt]. }
    assert (2 ^ (Zdigits2 (Zpos m) + e) <= 2 ^ 10) by (apply Z.pow_le_mono_r; lia).
    lia.
  - apply Z.leb_gt in E.
    replace (10 ^ 21 * 2 ^ (- e) <=? Zpos m) with false; [apply to_fixed_pos_four|].
    symmetry. apply Z.leb_gt.
    assert (2 ^ Zdigits2 (Zpos m) <= 2 ^ (10 + - e)) by (apply Z.pow_le_mono_r; lia).
    rewrite Z.pow_add_r in H by lia.
    assert (0 < 2 ^ (- e)) by (apply Z.pow_pos_nonneg; lia).
    nia.
Qed.

End Percentages.

(** ** Whole numbers and Number::toString *)

Section WholeNumbers.

Local Open Scope Z_scope.






























End WholeNumbers.

(** ** Claims about the layout *)

(** C4: [generateLayout] emits, after the container and row rules, one class
    [.col-i] for [i] from 1 to [cols] whose [flex-basis] and [max-width] are
    the same percentage [((i / cols) * 100).toFixed(4)], then per breakpoint
    the same classes, named [prefix\:col-i], inside a [min-width] media
    query. For [1 <= i <= cols] (with [cols] a safe integer, below [2^53])
    the percentage always has a non-empty integer part and exactly four
    fraction digits; for [cols = 12] the percentages of indices 12 and 6
    are [100.0000] and [50.0000]. *)
Theorem generateLayout_columns (th : Theme) (Hcols : (cols (layout th) < 2 ^ 53)%N) :
  generateLayout th = LayoutSpec.grid th
  /\ (forall i, (1 <= i <= cols (layout th))%N ->
        LayoutSpec.four_decimals (LayoutSpec.pct (cols (layout th)) i))
  /\ LayoutSpec.pct 12 12 = u "100.0000" /\ LayoutSpec.pct 12 6 = u "50.0000".
Proof.
  split; [apply generateLayout_grid|]. split.
  - intros i Hi. apply to_fixed_four, pct_value_shape; assumption.
  - split; vm_compute; reflexivity.
Qed.

Lemma generateLayout_columns_witness :
  (cols (layout Examples.theme0) < 2 ^ 53)%N
  /\ generateLayout Examples.theme0 = LayoutSpec.grid Examples.theme0.
Proof.
  assert (H : (cols (layout Examples.theme0) < 2 ^ 53)%N) by (vm_compute; reflexivity).
  split; [exact H|].
  exact (proj1 (generateLayout_columns Examples.theme0 H)).
Defined.

(** ** Colors *)

Section Colors.
Local Open Scope Z_scope.

Definition hex_check (k : nat) : bool :=
  let c := N.of_nat k in
  implb (is_hex c)
    (negb (is_ws c) && negb (N.eqb c 43) && negb (N.eqb c 45) && negb (N.eqb c 120)
     && negb (N.eqb c 88) && (0 <=? hex_val c) && (hex_val c <? 16)).

Lemma hex_facts (c : N) : is_hex c = true ->
  is_ws c = false /\ N.eqb c 43 = false /\ N.eqb c 45 = false /\ N.eqb c 120 = false
  /\ N.eqb c 88 = false /\ 0 <= hex_val c < 16.
Proof.
  intros H.
  assert (B : (c < 103)%N).
  { unfold is_hex, is_digit in H. repeat rewrite orb_true_iff, ?andb_true_iff, ?N.leb_le in H. lia. }
  assert (C : forallb hex_check (seq 0 103) = true) by (vm_compute; reflexivity).
  rewrite forallb_forall in C. specialize (C (N.to_nat c) ltac:(apply in_seq; lia)).
  unfold hex_check in C. rewrite N2Nat.id, H in C. cbn [implb] in C.
  repeat rewrite andb_true_iff in C. rewrite !negb_true_iff, Z.leb_le, Z.ltb_lt in C.
  tauto.
Qed.

Lemma hex_char_hex (d : Z) : 0 <= d < 16 -> is_hex (hex_char d) = true.
Proof.
  intros H. assert (E : d = 0 \/ d = 1 \/ d = 2 \/ d = 3 \/ d = 4 \/ d = 5 \/ d = 6 \/ d = 7
    \/ d = 8 \/ d = 9 \/ d = 10 \/ d = 11 \/ d = 12 \/ d = 13 \/ d = 14 \/ d = 15) by lia.
  repeat destruct E as [->|E]; try reflexivity; subst; reflexivity.
Qed.

(** Reading six hex digits with parseInt(s, 16). *)
Lemma parse_int16_six (d1 d2 d3 d4 d5 d6 : N) :
  forallb is_hex [d1; d2; d3; d4; d5; d6] = true ->
  parse_int16 [d1; d2; d3; d4; d5; d6]
  = if digits_value 16 hex_val [d1; d2; d3; d4; d5; d6] =? 0 then S754_zero false
    else of_Z (digits_value 16 hex_val [d1; d2; d3; d4; d5; d6]).
Proof.
  intros H. cbn [forallb] in H. repeat rewrite andb_true_iff in H.
  destruct H as [H1 [H2 [H3 [H4 [H5 [H6 _]]]]]].
  destruct (hex_facts d1 H1) as [W1 [P1 [M1 _]]].
  destruct (hex_facts d2 H2) as [_ [_ [_ [X2 [Y2 _]]]]].
  unfold parse_int16. cbn [drop_while]. rewrite W1. cbv beta iota zeta.
  rewrite P1, M1. cbv beta iota zeta. rewrite X2, Y2, andb_false_r. cbv beta iota.
  cbn [take_while]. rewrite H1, H2, H3, H4, H5, H6.
  destruct (digits_value 16 hex_val [d1; d2; d3; d4; d5; d6]); reflexivity.
Qed.

Lemma to_int32_of_Z (v : Z) : 0 < v < 2 ^ 31 -> to_int32 (of_Z v) = v.
Proof.
  intros H. destruct (of_Z_exact v ltac:(lia)) as [m [E [Em _]]]. rewrite E.
  assert (Dv : Zdigits2 v <= 31) by (apply Zdigits2_le; lia).
  unfold to_int32, ratio_of.
  replace (0 <=? Zdigits2 v - 53) with false by (symmetry; apply Z.leb_gt; lia).
  rewrite Em. replace (- (Zdigits2 v - 53)) with (53 - Zdigits2 v) by lia.
  rewrite Z.div_mul by (apply Z.pow_nonzero; lia).
  rewrite Z.mod_small by lia.
  replace (2 ^ 31 <=? v) with false by (symmetry; apply Z.leb_gt; lia). reflexivity.
Qed.

(** The three channels of the packed value. *)
Lemma channels_of_six (h1 h2 h3 h4 h5 h6 : Z) :
  0 <= h1 < 16 -> 0 <= h2 < 16 -> 0 <= h3 < 16 -> 0 <= h4 < 16 -> 0 <= h5 < 16 -> 0 <= h6 < 16 ->
  let v := (((((0 * 16 + h1) * 16 + h2) * 16 + h3) * 16 + h4) * 16 + h5) * 16 + h6 in
  Z.land (Z.shiftr v 16) 255 = 16 * h1 + h2
  /\ Z.land (Z.shiftr v 8) 255 = 16 * h3 + h4
  /\ Z.land v 255 = 16 * h5 + h6.
Proof.
  intros. subst v. change 255 with (Z.ones 8).
  rewrite !Z.shiftr_div_pow2, !Z.land_ones by lia.
  change (2 ^ 8) with 256. change (2 ^ 16) with 65536.
  split; [|split]; Z.div_mod_to_equations; lia.
Qed.

Lemma hex_digits_aux_cons (f : nat) (q d : Z) (acc : jstr) :
  0 <= d < 16 -> 1 <= q ->
  hex_digits_aux (S f) (16 * q + d) acc = hex_digits_aux f q (hex_char d :: acc).
Proof.
  intros Hd Hq. cbn [hex_digits_aux].
  replace ((16 * q + d) mod 16) with d by (Z.div_mod_to_equations; lia).
  replace (16 * q + d <? 16) with false by (symmetry; apply Z.ltb_ge; lia).
  replace ((16 * q + d) / 16) with q by (Z.div_mod_to_equations; lia).
  reflexivity.
Qed.

Lemma hex_digits_packed (r g b : Z) :
  0 <= r <= 255 -> 0 <= g <= 255 -> 0 <= b <= 255 ->
  hex_digits (2 ^ 24 + Z.shiftl r 16 + Z.shiftl g 8 + b)
  = hex_char 1 :: ColorSpec.hex2 r ++ ColorSpec.hex2 g ++ ColorSpec.hex2 b.
Proof.
  intros Hr Hg Hb. rewrite !Z.shiftl_mul_pow2 by lia.
  assert (L : Z.log2 (2 ^ 24 + r * 2 ^ 16 + g * 2 ^ 8 + b) = 24).
  { apply Z.log2_unique; [lia|]. change (2 ^ 24) with 16777216. change (2 ^ 16) with 65536.
    change (2 ^ 8) with 256. change (2 ^ (24 + 1)) with 33554432. lia. }
  unfold hex_digits. rewrite L. change (S (Z.to_nat 24)) with 25%nat.
  replace (2 ^ 24 + r * 2 ^ 16 + g * 2 ^ 8 + b)
    with (16 * (16 * (16 * (16 * (16 * (16 * 1 + r / 16) + r mod 16) + g / 16) + g mod 16)
                + b / 16) + b mod 16)
    by (change (2 ^ 24) with 16777216; change (2 ^ 16) with 65536; change (2 ^ 8) with 256;
        Z.div_mod_to_equations; lia).
  assert (R1 := Z.mod_pos_bound r 16 ltac:(lia)). assert (G1 := Z.mod_pos_bound g 16 ltac:(lia)).
  assert (B1 := Z.mod_pos_bound b 16 ltac:(lia)).
  assert (0 <= r / 16 < 16) by (Z.div_mod_to_equations; lia).
  assert (0 <= g / 16 < 16) by (Z.div_mod_to_equations; lia).
  assert (0 <= b / 16 < 16) by (Z.div_mod_to_equations; lia).
  rewrite !hex_digits_aux_cons by (Z.div_mod_to_equations; lia).
  reflexivity.
Qed.

Lemma neg_one : fopp (lit "1") = S754_finite true 4503599627370496 (-52).
Proof. vm_compute. reflexivity. Qed.

Lemma of_Z_one : of_Z 1 = S754_finite false 4503599627370496 (-52).
Proof. vm_compute. reflexivity. Qed.

Lemma of_Z_finite (z : Z) : 0 <= z < 2 ^ 53 -> is_finite (of_Z z) = true.
Proof.
  intros H. destruct (Z.eq_dec z 0) as [->|N]; [reflexivity|].
  destruct (of_Z_exact z ltac:(lia)) as [m [E _]]. rewrite E. reflexivity.
Qed.

Lemma fsub_255_finite (c : Z) : 0 <= c <= 255 -> is_finite (fsub (of_Z 255) (of_Z c)) = true.
Proof.
  intros H.
  assert (C : forallb (fun k => is_finite (fsub (of_Z 255) (of_Z (Z.of_nat k)))) (seq 0 256) = true)
    by (vm_compute; reflexivity).
  rewrite forallb_forall in C. specialize (C (Z.to_nat c) ltac:(apply in_seq; lia)).
  rewrite Z2Nat.id in C by lia. exact C.
Qed.

(** An amount in [-1, 0) is a negative finite number of magnitude at most 1. *)
Lemma amount_negative (amount : num) :
  valid_binary prec emax amount = true -> fleb (fopp (lit "1")) amount = true ->
  fleb zero amount = false ->
  exists m e, amount = S754_finite true m e /\ Zdigits2 (Zpos m) + e <= 1.
Proof.
  rewrite neg_one. intros Hv Hlo Hz.
  destruct amount as [s|s| |s m e]; try discriminate; [destruct s; discriminate|].
  destruct s; [|discriminate].
  exists m, e. split; [reflexivity|].
  unfold fleb, SFleb, SFcompare in Hlo.
  assert (He : e <= -52).
  { destruct (Z.compare (-52) e) eqn:C; try discriminate.
    - apply Z.compare_eq_iff in C. lia.
    - apply Z.compare_gt_iff in C. lia. }
  cbn [valid_binary] in Hv. unfold bounded, canonical_mantissa in Hv.
  apply andb_prop in Hv. destruct Hv as [Hc _]. apply Z.eqb_eq in Hc.
  rewrite fexp_eq in Hc. change (Zpos (digits2_pos m)) with (Zdigits2 (Zpos m)) in Hc. lia.
Qed.

Lemma amount_finite (amount : num) :
  fleb (fopp (lit "1")) amount = true -> fleb amount (lit "1") = true ->
  is_finite amount = true.
Proof.
  rewrite neg_one. intros Hlo Hhi.
  destruct amount as [s|s| |s m e]; try reflexivity; try discriminate.
  destruct s; discriminate.
Qed.

Lemma channel_not_nan (amount : num) (c : Z) :
  valid_binary prec emax amount = true ->
  fleb (fopp (lit "1")) amount = true -> fleb amount (lit "1") = true ->
  0 <= c <= 255 -> ColorSpec.channel amount c <> S754_nan.
Proof.
  intros Hv Hlo Hhi Hc. unfold ColorSpec.channel.
  destruct (fleb zero amount) eqn:Z0.
  - apply fadd_not_nan; [apply of_Z_finite; lia|].
    apply fmul_not_nan; [apply fsub_255_finite; lia|]. apply amount_finite; assumption.
  - destruct (amount_negative amount Hv Hlo Z0) as [m [e [-> B]]].
    apply fmul_not_nan; [apply of_Z_finite; lia|].
    cbn [SFabs]. rewrite of_Z_one. apply fsub_pos_finite.
    change (Zdigits2 (Zpos 4503599627370496)) with 53. lia.
Qed.

Lemma clamp_round (x : num) : x <> S754_nan -> clampChannel x = Some (ColorSpec.round_clamp x).
Proof.
  intros H. destruct x as [s|s| |s m e]; try reflexivity; [contradiction|].
  unfold clampChannel, ColorSpec.round_clamp, round_finite.
  destruct (ratio_of m e). reflexivity.
Qed.

Lemma round_clamp_range (x : num) : 0 <= ColorSpec.round_clamp x <= 255.
Proof.
  destruct x as [s|s| |s m e]; cbn [ColorSpec.round_clamp]; try lia.
  - destruct s; lia.
  - destruct (ratio_of m e). lia.
Qed.

(** The code's per-channel step, with [factor] as the code computes it. *)
Lemma adjust_channel (amount : num) (c : Z) :
  valid_binary prec emax amount = true ->
  fleb (fopp (lit "1")) amount = true -> fleb amount (lit "1") = true ->
  0 <= c <= 255 ->
  (if fleb zero amount then
     clampChannel (fadd (of_Z c) (fmul (fsub (of_Z 255) (of_Z c))
                                  (if fleb zero amount then amount else fopp amount)))
   else clampChannel (fmul (of_Z c) (fsub (of_Z 1)
                                  (if fleb zero amount then amount else fopp amount))))
  = Some (ColorSpec.round_clamp (ColorSpec.channel amount c)).
Proof.
  intros Hv Hlo Hhi Hc.
  rewrite <- clamp_round by (apply channel_not_nan; assumption).
  unfold ColorSpec.channel. destruct (fleb zero amount) eqn:Z0; [reflexivity|].
  destruct (amount_negative amount Hv Hlo Z0) as [m [e [-> _]]]. reflexivity.
Qed.

Lemma to_int32_decoded (v : Z) : 0 <= v < 2 ^ 31 ->
  to_int32 (if v =? 0 then S754_zero false else of_Z v) = v.
Proof. intros H. destruct v as [|p|p]; [reflexivity|apply to_int32_of_Z; lia|lia]. Qed.

End Colors.

(** ** Claims about colors *)

(** C2: for a color [#] followed by six hex digits and an amount in
    [[-1, 1]] (a Number: a valid binary64 value), [adjustColor] reads the
    three channels from the pairs of digits, applies to each the same step
    [channel + (255 - channel) * amount] when [amount >= 0] and
    [channel * (1 - |amount|)] otherwise, rounds to the nearest integer,
    clamps to [[0, 255]] and returns [#] followed by exactly six hex digits,
    two per channel; [adjustColor("#000000", 0.5)] and
    [adjustColor("#ffffff", -0.5)] are both [#808080]. *)
Theorem adjustColor_spec (d1 d2 d3 d4 d5 d6 : N) (amount : num)
  (Hhex : forallb is_hex [d1; d2; d3; d4; d5; d6] = true)
  (Hnum : valid_binary prec emax amount = true)
  (Hlo : fleb (fopp (lit "1")) amount = true) (Hhi : fleb amount (lit "1") = true) :
  adjustColor (u "#" ++ [d1; d2; d3; d4; d5; d6]) amount
    = ColorSpec.adjust d1 d2 d3 d4 d5 d6 amount
  /\ (exists h, adjustColor (u "#" ++ [d1; d2; d3; d4; d5; d6]) amount = u "#" ++ h
                /\ List.length h = 6%nat /\ forallb is_hex h = true)
  /\ adjustColor (u "#000000") (lit "0.5") = u "#808080"
  /\ adjustColor (u "#ffffff") (fopp (lit "0.5")) = u "#808080".
Proof.
  assert (Main : adjustColor (u "#" ++ [d1; d2; d3; d4; d5; d6]) amount
                 = ColorSpec.adjust d1 d2 d3 d4 d5 d6 amount).
  { pose proof Hhex as H. cbn [forallb] in H. repeat rewrite andb_true_iff in H.
    destruct H as [H1 [H2 [H3 [H4 [H5 [H6 _]]]]]].
    pose proof (proj2 (proj2 (proj2 (proj2 (proj2 (hex_facts d1 H1)))))) as V1.
    pose proof (proj2 (proj2 (proj2 (proj2 (proj2 (hex_facts d2 H2)))))) as V2.
    pose proof (proj2 (proj2 (proj2 (proj2 (proj2 (hex_facts d3 H3)))))) as V3.
    pose proof (proj2 (proj2 (proj2 (proj2 (proj2 (hex_facts d4 H4)))))) as V4.
    pose proof (proj2 (proj2 (proj2 (proj2 (proj2 (hex_facts d5 H5)))))) as V5.
    pose proof (proj2 (proj2 (proj2 (proj2 (proj2 (hex_facts d6 H6)))))) as V6.
    unfold adjustColor. cbv beta zeta.
    replace (remove_first 35 (u "#" ++ [d1; d2; d3; d4; d5; d6])) with [d1; d2; d3; d4; d5; d6]
      by reflexivity.
    rewrite (parse_int16_six _ _ _ _ _ _ Hhex).
    change (digits_value 16 hex_val [d1; d2; d3; d4; d5; d6])
      with ((((((0 * 16 + hex_val d1) * 16 + hex_val d2) * 16 + hex_val d3) * 16 + hex_val d4)
              * 16 + hex_val d5) * 16 + hex_val d6)%Z.
    rewrite to_int32_decoded by lia.
    pose proof (channels_of_six _ _ _ _ _ _ V1 V2 V3 V4 V5 V6) as C. cbv zeta in C.
    destruct C as [C1 [C2 C3]]. rewrite C1, C2, C3.
    rewrite !adjust_channel by (assumption || lia).
    cbv beta iota. cbn [shl_channel].
    rewrite hex_digits_packed by apply round_clamp_range.
    reflexivity. }
  split; [exact Main|]. split.
  - exists (ColorSpec.hex2 (ColorSpec.round_clamp (ColorSpec.channel amount (ColorSpec.pair_value d1 d2)))
            ++ ColorSpec.hex2 (ColorSpec.round_clamp (ColorSpec.channel amount (ColorSpec.pair_value d3 d4)))
            ++ ColorSpec.hex2 (ColorSpec.round_clamp (ColorSpec.channel amount (ColorSpec.pair_value d5 d6)))).
    split; [exact Main|]. split; [reflexivity|].
    unfold ColorSpec.hex2.
    pose proof (round_clamp_range (ColorSpec.channel amount (ColorSpec.pair_value d1 d2))).
    pose proof (round_clamp_range (ColorSpec.channel amount (ColorSpec.pair_value d3 d4))).
    pose proof (round_clamp_range (ColorSpec.channel amount (ColorSpec.pair_value d5 d6))).
    cbn [app forallb].
    rewrite !hex_char_hex by (Z.div_mod_to_equations; lia). reflexivity.
  - split; vm_compute; reflexivity.
Qed.

Lemma adjustColor_spec_witness :
  forallb is_hex (u "3b82f6") = true /\ valid_binary prec emax (lit "0.18") = true
  /\ fleb (fopp (lit "1")) (lit "0.18") = true /\ fleb (lit "0.18") (lit "1") = true
  /\ adjustColor (u "#3b82f6") (lit "0.18")
     = ColorSpec.adjust (ch "3") (ch "b") (ch "8") (ch "2") (ch "f") (ch "6") (lit "0.18").
Proof.
  assert (H1 : forallb is_hex [ch "3"; ch "b"; ch "8"; ch "2"; ch "f"; ch "6"] = true)
    by (vm_compute; reflexivity).
  assert (H2 : valid_binary prec emax (lit "0.18") = true) by (vm_compute; reflexivity).
  assert (H3 : fleb (fopp (lit "1")) (lit "0.18") = true) by (vm_compute; reflexivity).
  assert (H4 : fleb (lit "0.18") (lit "1") = true) by (vm_compute; reflexivity).
  split; [exact H1|]. split; [exact H2|]. split; [exact H3|]. split; [exact H4|].
  exact (proj1 (adjustColor_spec _ _ _ _ _ _ _ H1 H2 H3 H4)).
Defined.

(** * Further properties of the build script *)

(** ** Minifier *)

Lemma adj_ok_cons P a s : adj_ok P (a :: s) = pair_ok P a s && adj_ok P s.
Proof. destruct s; reflexivity. Qed.

Lemma adj_ok_app P a b :
  adj_ok P (a ++ b) = true -> adj_ok P a = true /\ adj_ok P b = true.
Proof.
  induction a as [|x a IH]; intro H; [split; [reflexivity | exact H]|].
  rewrite <- app_comm_cons, adj_ok_cons in H. apply andb_prop in H as [H1 H2].
  destruct (IH H2) as [Ha Hb]. split; [|exact Hb].
  rewrite adj_ok_cons, Ha, andb_true_r. destruct a; [|exact H1].
  reflexivity.
Qed.


Lemma drop_while_suffix p s : exists pre, s = pre ++ drop_while p s.
Proof.
  induction s as [|c s IH]; [exists []; reflexivity|]. cbn [drop_while].
  destruct (p c); [destruct IH as [pre E]; exists (c :: pre); rewrite E at 1; reflexivity|].
  exists []; reflexivity.
Qed.

Lemma drop_while_head p s c r : drop_while p s = c :: r -> p c = false.
Proof.
  induction s as [|d s IH]; cbn [drop_while]; [discriminate|].
  destruct (p d) eqn:E; [exact IH|]. intro H; injection H as <- _; exact E.
Qed.

(** [trim s] is a contiguous piece of [s] whose first and last characters
    are not whitespace. *)
Lemma trim_infix s : exists pre post, s = pre ++ trim s ++ post.
Proof.
  unfold trim. destruct (drop_while_suffix is_ws s) as [pre E1].
  destruct (drop_while_suffix is_ws (rev (drop_while is_ws s))) as [pre2 E2].
  exists pre, (rev pre2). rewrite E1 at 1. f_equal.
  rewrite <- rev_app_distr, <- E2, rev_involutive. reflexivity.
Qed.

Lemma trim_ends s :
  (forall c r, trim s = c :: r -> is_ws c = false) /\
  (forall c r, trim s = r ++ [c] -> is_ws c = false).
Proof.
  unfold trim. split.
  - intros c r H.
    destruct (drop_while_suffix is_ws (rev (drop_while is_ws s))) as [pre2 E2].
    apply (f_equal (@rev N)) in E2. rewrite rev_involutive, rev_app_distr, H in E2.
    apply (drop_while_head is_ws s c (r ++ rev pre2)). rewrite E2. reflexivity.
  - intros c r H. apply (f_equal (@rev N)) in H.
    rewrite rev_involutive, rev_app_distr in H. cbn in H.
    exact (drop_while_head _ _ _ _ H).
Qed.

Lemma adj_ok_infix P pre m post :
  adj_ok P (pre ++ m ++ post) = true -> adj_ok P m = true.
Proof. intro H. apply adj_ok_app in H as [_ H]. apply adj_ok_app in H as [H _]. exact H. Qed.

Lemma collapse_ws_spaces b s c : In c (collapse_ws b s) -> is_ws c = true -> c = 32%N.
Proof.
  revert b. induction s as [|d s IH]; intro b; cbn [collapse_ws]; [contradiction|].
  destruct (is_ws d) eqn:Ed; [destruct b|].
  - apply IH.
  - intros [<-|H]; [reflexivity|]. apply (IH _ H).
  - intros [<-|H] Hc; [congruence|]. exact (IH _ H Hc).
Qed.

Lemma collapse_ws_runs s :
  forall b, adj_ok no_ws_pair (collapse_ws b s) = true /\
            (b = true -> pair_ok no_ws_pair 32%N (collapse_ws b s) = true).
Proof.
  induction s as [|d s IH]; intro b; [split; reflexivity|]. cbn [collapse_ws].
  destruct (is_ws d) eqn:Ed; [destruct b|].
  - exact (IH true).
  - split; [|discriminate]. rewrite adj_ok_cons.
    destruct (IH true) as [H1 H2]. rewrite H1, H2 by reflexivity. reflexivity.
  - split.
    + rewrite adj_ok_cons. destruct (IH false) as [H1 _]. rewrite H1, andb_true_r.
      destruct (collapse_ws false s); [reflexivity|]. unfold pair_ok, no_ws_pair. rewrite Ed. reflexivity.
    + intros _. unfold pair_ok, no_ws_pair. rewrite Ed. reflexivity.
Qed.

(** X1: the minified text holds whitespace only as single spaces: every
    whitespace character is a space, no two are adjacent, and the text
    neither starts nor ends with whitespace. *)
Theorem minifyCSS_whitespace css :
  let m := minifyCSS css in
  (forall c, In c m -> is_ws c = true -> c = 32%N) /\
  adj_ok no_ws_pair m = true /\
  (forall c r, m = c :: r -> is_ws c = false) /\
  (forall c r, m = r ++ [c] -> is_ws c = false).
Proof.
  cbv zeta. unfold minifyCSS.
  set (t := collapse_ws false _).
  destruct (trim_infix t) as (pre & post & E).
  destruct (trim_ends t) as [H3 H4].
  split; [|split; [|split; assumption]].
  - intros c Hc. apply (collapse_ws_spaces false (drop_semi (strip_punct false [] (strip_comments (List.length css) css)))).
    fold t. rewrite E. apply in_or_app. right. apply in_or_app. left. exact Hc.
  - apply (adj_ok_infix _ pre _ post). rewrite <- E. apply collapse_ws_runs.
Qed.

Lemma punct_cases c :
  is_punct c = true -> c = 123%N \/ c = 125%N \/ c = 58%N \/ c = 59%N \/ c = 44%N.
Proof.
  destruct c as [|p]; [discriminate|].
  repeat (destruct p as [p|p|]; try discriminate);
    intros _; repeat (first [left; reflexivity | right]); reflexivity.
Qed.

Lemma ws_not_punct c : is_ws c = true -> is_punct c = false.
Proof.
  destruct (is_punct c) eqn:P; [|reflexivity].
  apply punct_cases in P. intuition subst; discriminate.
Qed.

Lemma tight_ws_ws a b : is_ws a = true -> is_ws b = true -> tight_pair a b = true.
Proof.
  intros Ha Hb. unfold tight_pair.
  rewrite (ws_not_punct a Ha), (ws_not_punct b Hb), !andb_false_r. reflexivity.
Qed.

Lemma tight_all_ws s : forallb is_ws s = true -> adj_ok tight_pair s = true.
Proof.
  induction s as [|x s IH]; intro H; [reflexivity|].
  cbn [forallb] in H. apply andb_prop in H as [Hx H].
  rewrite adj_ok_cons, IH by exact H. destruct s as [|y s]; [reflexivity|].
  cbn [forallb] in H. apply andb_prop in H as [Hy _].
  cbn [pair_ok]. rewrite tight_ws_ws by assumption. reflexivity.
Qed.

Lemma tight_pend_app pend c x :
  forallb is_ws pend = true -> is_punct c = false ->
  adj_ok tight_pair (c :: x) = true -> adj_ok tight_pair (pend ++ c :: x) = true.
Proof.
  intros Hp Hc Hx. induction pend as [|y pend IH]; [exact Hx|].
  cbn [forallb] in Hp. apply andb_prop in Hp as [Hy Hp].
  rewrite <- app_comm_cons, adj_ok_cons, IH by exact Hp. rewrite andb_true_r.
  destruct pend as [|z pend].
  - cbn. unfold tight_pair. rewrite Hc, (ws_not_punct y Hy), !andb_false_r. reflexivity.
  - cbn [forallb] in Hp. apply andb_prop in Hp as [Hz _].
    cbn. apply tight_ws_ws; assumption.
Qed.

(** Punctuation is never next to whitespace after [strip_punct]. *)
Lemma strip_punct_tight s :
  forall after pend, forallb is_ws pend = true ->
  adj_ok tight_pair (strip_punct after pend s) = true /\
  (after = true -> pend = [] -> forall c r, strip_punct after pend s = c :: r -> is_ws c = false).
Proof.
  induction s as [|c s IH]; intros after pend Hp; cbn [strip_punct].
  - destruct after; [split; [reflexivity | intros _ _ ? ? H; discriminate]|].
    split; [apply tight_all_ws, Hp | discriminate].
  - destruct (is_ws c) eqn:Wc; [destruct after|].
    + destruct (IH true [] eq_refl) as [H1 H2]. split; [exact H1|].
      intros _ _. exact (H2 eq_refl eq_refl).
    + split; [|discriminate]. apply IH.
      rewrite forallb_app, Hp. cbn. rewrite Wc. reflexivity.
    + destruct (is_punct c) eqn:Pc.
      * destruct (IH true [] eq_refl) as [H1 H2]. split.
        -- rewrite adj_ok_cons, H1, andb_true_r.
           destruct (strip_punct true [] s) as [|h r] eqn:E; [reflexivity|].
           cbn [pair_ok]. unfold tight_pair.
           rewrite Wc, (H2 eq_refl eq_refl h r eq_refl), andb_false_r. reflexivity.
        -- intros _ _ c' r' H. injection H as <- _. exact Wc.
      * destruct (IH false [] eq_refl) as [H1 _]. split.
        -- apply tight_pend_app; [exact Hp | exact Pc|].
           rewrite adj_ok_cons, H1, andb_true_r.
           destruct (strip_punct false [] s); [reflexivity|].
           cbn [pair_ok]. unfold tight_pair. rewrite Wc, Pc. reflexivity.
        -- intros _ -> c' r' H. injection H as <- _. exact Wc.
Qed.

Lemma drop_semi_cons c r :
  drop_semi (c :: r) =
  match r with
  | d :: r' => if N.eqb c 59 && N.eqb d 125 then 125%N :: drop_semi r' else c :: drop_semi r
  | [] => [c]
  end.
Proof.
  destruct r as [|d r]; destruct c as [|p]; try reflexivity;
    do 7 (try (destruct p as [p|p|]; try reflexivity)).
  all: destruct d as [|q]; try reflexivity; do 8 (try (destruct q as [q|q|]; try reflexivity)).
Qed.

Lemma pair_ok_drop_semi a s :
  pair_ok tight_pair a (drop_semi s) = pair_ok tight_pair a s.
Proof.
  destruct s as [|c r]; [reflexivity|]. rewrite drop_semi_cons.
  destruct r as [|d r]; [reflexivity|].
  destruct (N.eqb_spec c 59); destruct (N.eqb_spec d 125); subst; try reflexivity.
Qed.

Lemma drop_semi_tight n s :
  (List.length s <= n)%nat ->
  adj_ok tight_pair s = true -> adj_ok tight_pair (drop_semi s) = true.
Proof.
  revert s. induction n as [|n IH]; intros s Hl H.
  - destruct s; [reflexivity | cbn in Hl; lia].
  - destruct s as [|c r]; [reflexivity|]. rewrite drop_semi_cons.
    rewrite adj_ok_cons in H. apply andb_prop in H as [Hc Hr].
    destruct r as [|d r']; [reflexivity|]. cbn [List.length] in Hl.
    destruct (N.eqb c 59 && N.eqb d 125) eqn:E.
    + apply andb_prop in E as [_ E]. apply N.eqb_eq in E. subst d.
      rewrite adj_ok_cons in Hr. apply andb_prop in Hr as [Hd Hr'].
      rewrite adj_ok_cons, pair_ok_drop_semi, Hd, IH by (try lia; assumption).
      reflexivity.
    + rewrite adj_ok_cons, pair_ok_drop_semi, Hc, IH by (try (cbn; lia); assumption).
      reflexivity.
Qed.

Lemma collapse_ws_after_ws w s :
  is_ws w = true -> adj_ok tight_pair (w :: s) = true ->
  pair_ok tight_pair 32%N (collapse_ws true s) = true.
Proof.
  revert w. induction s as [|c s IH]; intros w Hw H; [reflexivity|].
  rewrite adj_ok_cons in H. apply andb_prop in H as [Hc Hs].
  cbn [collapse_ws]. destruct (is_ws c) eqn:Wc; [exact (IH c Wc Hs)|].
  cbn [pair_ok] in *. unfold tight_pair in *. rewrite Hw in Hc. cbn in Hc |- *.
  destruct (is_punct c); [discriminate | reflexivity].
Qed.

Lemma collapse_ws_tight s :
  forall b, adj_ok tight_pair s = true -> adj_ok tight_pair (collapse_ws b s) = true.
Proof.
  induction s as [|c s IH]; intros b H; [reflexivity|].
  pose proof H as H0. rewrite adj_ok_cons in H. apply andb_prop in H as [Hc Hs].
  cbn [collapse_ws]. destruct (is_ws c) eqn:Wc; [destruct b|].
  - exact (IH true Hs).
  - rewrite adj_ok_cons, (collapse_ws_after_ws c s Wc H0), IH by exact Hs. reflexivity.
  - rewrite adj_ok_cons, IH by exact Hs. rewrite andb_true_r.
    destruct s as [|d s]; [reflexivity|]. cbn [collapse_ws].
    cbn [pair_ok] in Hc. unfold tight_pair in Hc.
    destruct (is_ws d) eqn:Wd; cbn [pair_ok]; unfold tight_pair.
    + rewrite Wc. cbn. rewrite Wc in Hc. cbn in Hc. rewrite andb_true_r in Hc |- *. exact Hc.
    + rewrite Wc, Wd, !andb_false_r. reflexivity.
Qed.

(** X2: in the minified text no whitespace character is next to one of
    [{ } : ; ,]. *)
Theorem minifyCSS_punctuation css :
  adj_ok tight_pair (minifyCSS css) = true.
Proof.
  unfold minifyCSS. set (t := collapse_ws false _).
  destruct (trim_infix t) as (pre & post & E).
  apply (adj_ok_infix _ pre _ post). rewrite <- E. unfold t.
  apply collapse_ws_tight. eapply drop_semi_tight; [apply le_n|].
  apply strip_punct_tight. reflexivity.
Qed.

Lemma after_close_cons c r :
  after_close (c :: r) =
  match r with
  | d :: r' => if N.eqb c 42 && N.eqb d 47 then Some r' else after_close r
  | [] => None
  end.
Proof.
  destruct r as [|d r]; destruct c as [|p]; try reflexivity;
    do 7 (try (destruct p as [p|p|]; try reflexivity)).
  all: destruct d as [|q]; try reflexivity; do 7 (try (destruct q as [q|q|]; try reflexivity)).
Qed.

Lemma after_close_shorter s r : after_close s = Some r -> (List.length r < List.length s)%nat.
Proof.
  induction s as [|c s IH]; [discriminate|]. rewrite after_close_cons.
  destruct s as [|d s']; [discriminate|].
  destruct (N.eqb c 42 && N.eqb d 47).
  - intro H. injection H as <-. cbn. lia.
  - intro H. specialize (IH H). cbn in *. lia.
Qed.

Lemma strip_comments_cons f c r :
  strip_comments (S f) (c :: r) =
  if N.eqb c 47 then
    match r with
    | d :: r' => if N.eqb d 42 then
                   match after_close r' with
                   | Some r'' => strip_comments f r''
                   | None => 47%N :: strip_comments f r
                   end
                 else c :: strip_comments f r
    | [] => c :: strip_comments f r
    end
  else c :: strip_comments f r.
Proof.
  destruct r as [|d r]; destruct c as [|p]; try reflexivity;
    do 7 (try (destruct p as [p|p|]; try reflexivity)).
  all: destruct d as [|q]; try reflexivity; do 7 (try (destruct q as [q|q|]; try reflexivity)).
Qed.

Lemma strip_comments_length f s : (List.length (strip_comments f s) <= List.length s)%nat.
Proof.
  revert s. induction f as [|f IH]; intro s; [apply le_n|].
  destruct s as [|c r]; [cbn; lia|]. rewrite strip_comments_cons.
  destruct (N.eqb c 47); [|cbn; specialize (IH r); lia].
  destruct r as [|d r']; [specialize (IH []); cbn in *; lia|].
  destruct (N.eqb d 42); [|cbn [List.length]; specialize (IH (d :: r')); cbn in *; lia].
  destruct (after_close r') as [r''|] eqn:E.
  - apply after_close_shorter in E. specialize (IH r''). cbn. lia.
  - specialize (IH (d :: r')). cbn in *. lia.
Qed.

Lemma strip_punct_length s :
  forall after pend, (List.length (strip_punct after pend s) <= List.length pend + List.length s)%nat.
Proof.
  induction s as [|c s IH]; intros after pend; cbn [strip_punct].
  - destruct after; cbn; lia.
  - destruct (is_ws c); [destruct after|].
    + specialize (IH true []). cbn in *. lia.
    + specialize (IH false (pend ++ [c])). rewrite length_app in IH. cbn in *. lia.
    + destruct (is_punct c).
      * specialize (IH true []). cbn in *. lia.
      * specialize (IH false []). rewrite length_app. cbn in *. lia.
Qed.

Lemma drop_semi_length n s : (List.length s <= n)%nat -> (List.length (drop_semi s) <= List.length s)%nat.
Proof.
  revert s. induction n as [|n IH]; intros s Hl.
  - destruct s; [cbn; lia | cbn in Hl; lia].
  - destruct s as [|c r]; [cbn; lia|]. rewrite drop_semi_cons.
    destruct r as [|d r']; [cbn; lia|]. cbn [List.length] in Hl.
    destruct (N.eqb c 59 && N.eqb d 125).
    + specialize (IH r' ltac:(lia)). cbn. lia.
    + specialize (IH (d :: r') ltac:(cbn; lia)). cbn in *. lia.
Qed.

Lemma collapse_ws_length b s : (List.length (collapse_ws b s) <= List.length s)%nat.
Proof.
  revert b. induction s as [|c s IH]; intro b; [cbn; lia|]. cbn [collapse_ws].
  destruct (is_ws c); [destruct b|]; cbn [List.length];
    [specialize (IH true) | specialize (IH true) | specialize (IH false)]; lia.
Qed.

(** X3: the minified text is never longer than its input. *)
Theorem minifyCSS_shorter css : (List.length (minifyCSS css) <= List.length css)%nat.
Proof.
  unfold minifyCSS. set (t := collapse_ws false _).
  destruct (trim_infix t) as (pre & post & E).
  apply (f_equal (@List.length N)) in E. rewrite !length_app in E.
  assert (List.length t <= List.length css)%nat.
  { unfold t. rewrite collapse_ws_length. rewrite drop_semi_length by apply le_n.
    rewrite strip_punct_length. cbn [List.length]. apply strip_comments_length. }
  lia.
Qed.

(** ** Autoprefixer *)

Lemma subseq_refl s : subseq s s.
Proof. induction s; constructor; assumption. Qed.

Lemma subseq_nil_l t : subseq [] t.
Proof. induction t; constructor; assumption. Qed.

Lemma subseq_app s1 t1 s2 t2 : subseq s1 t1 -> subseq s2 t2 -> subseq (s1 ++ s2) (t1 ++ t2).
Proof. intros H1 H2. induction H1; cbn; try constructor; assumption. Qed.

Lemma subseq_suffix s t : subseq s (t ++ s).
Proof. rewrite <- (app_nil_l s) at 1. apply subseq_app; [apply subseq_nil_l | apply subseq_refl]. Qed.

Lemma subseq_trans s t v : subseq s t -> subseq t v -> subseq s v.
Proof.
  intros H1 H2. revert s H1. induction H2; intros s0 H1.
  - exact H1.
  - constructor. apply IHsubseq, H1.
  - inversion H1; subst; constructor; apply IHsubseq; assumption.
Qed.

Lemma replace_scan_subseq fuel pat (v : jstr) s :
  subseq s (replace_scan fuel pat (fun m => v ++ u "\n  " ++ m) s).
Proof.
  revert s. induction fuel as [|fuel IH]; intro s; [apply subseq_refl|].
  destruct s as [|c r]; [constructor|]. cbn [replace_scan].
  destruct (match_at pat (c :: r)) as [[|k]|].
  - apply subseq_take, IH.
  - rewrite <- (firstn_skipn (S k) (c :: r)) at 1. rewrite app_assoc.
    apply subseq_app; [apply subseq_suffix | apply IH].
  - apply subseq_take, IH.
Qed.

(** X4: the autoprefixer only inserts text: its input is a subsequence of
    its output. *)
Theorem applyAutoprefix_inserts_only css : subseq css (applyAutoprefix css).
Proof.
  unfold applyAutoprefix.
  assert (G : forall l acc, subseq css acc ->
    subseq css (fold_left (fun prefixed '(pat, value) =>
               replace_all pat (fun m => value ++ u "\n  " ++ m) prefixed) l acc)).
  { induction l as [|[pat v] l IH]; intros acc H; [exact H|]. cbn [fold_left].
    apply IH. eapply subseq_trans; [exact H | apply replace_scan_subseq]. }
  apply G, subseq_refl.
Qed.

Lemma match_at_none pat s : prefixb (pat_name pat) s = false -> match_at pat s = None.
Proof. destruct pat; cbn; intros ->; reflexivity. Qed.

Lemma replace_scan_absent fuel pat f s :
  contains (pat_name pat) s = false -> replace_scan fuel pat f s = s.
Proof.
  revert s. induction fuel as [|fuel IH]; intros s H; [reflexivity|].
  destruct s as [|c r]; [reflexivity|]. cbn [contains] in H.
  apply orb_false_iff in H as [H1 H2]. cbn [replace_scan].
  rewrite match_at_none by exact H1. f_equal. apply IH, H2.
Qed.

Lemma replacement_names pat v :
  In (pat, v) replacements -> In (pat_name pat) trigger_names.
Proof.
  unfold replacements. intro H.
  repeat (destruct H as [H|H]; [injection H as <- <-; cbn [pat_name]; unfold trigger_names;
                                  repeat (first [left; reflexivity | right]) |]).
  destruct H.
Qed.

(** X5: a text that contains none of the property names the replacement
    table looks for is left unchanged by the autoprefixer. *)
Theorem applyAutoprefix_absent css :
  (forall p, In p trigger_names -> contains p css = false) ->
  applyAutoprefix css = css.
Proof.
  intro H. unfold applyAutoprefix.
  assert (G : forall l, (forall pat v, In (pat, v) l -> In (pat, v) replacements) ->
    fold_left (fun prefixed '(pat, value) =>
               replace_all pat (fun m => value ++ u "\n  " ++ m) prefixed) l css = css).
  { induction l as [|[pat v] l IH]; intro Hl; [reflexivity|]. cbn [fold_left].
    unfold replace_all at 2. rewrite replace_scan_absent.
    - apply IH. intros p w Hp. apply Hl. right. exact Hp.
    - apply H, (replacement_names pat v), Hl. left. reflexivity. }
  apply G. auto.
Qed.

Lemma applyAutoprefix_absent_witness :
  applyAutoprefix (u ".a { color: red; }") = u ".a { color: red; }".
Proof.
  apply applyAutoprefix_absent. intros p Hp.
  unfold trigger_names in Hp. repeat (destruct Hp as [<-|Hp]; [vm_compute; reflexivity|]). destruct Hp.
Defined.

(** ** Class count *)

Lemma count_dots_drop_while p s : (count_dots (drop_while p s) <= count_dots s)%nat.
Proof.
  induction s as [|c s IH]; [reflexivity|]. cbn [drop_while].
  destruct (p c); [|reflexivity]. unfold count_dots in *. cbn [filter].
  destruct (N.eqb 46 c); cbn [List.length]; lia.
Qed.

Lemma class_matches_dots fuel s : (List.length (class_matches fuel s) <= count_dots s)%nat.
Proof.
  revert s. induction fuel as [|fuel IH]; intro s; [cbn; lia|].
  destruct s as [|c r]; [cbn; lia|].
  replace (count_dots (c :: r)) with ((if N.eqb c 46 then 1 else 0) + count_dots r)%nat
    by (unfold count_dots; cbn [filter]; destruct (N.eqb_spec c 46) as [->|Hne]; [reflexivity|];
        replace (46 =? c)%N with false by (symmetry; apply N.eqb_neq; congruence); reflexivity).
  cbn [class_matches]. destruct (N.eqb c 46).
  - destruct (take_while is_cls r); cbn [List.length].
    + specialize (IH r). lia.
    + pose proof (count_dots_drop_while is_cls r). specialize (IH (drop_while is_cls r)). lia.
  - apply IH.
Qed.

Lemma undup_length l : (List.length (undup l) <= List.length l)%nat.
Proof.
  induction l as [|x l IH]; [reflexivity|]. cbn [undup].
  destruct (includes l x); cbn [List.length]; lia.
Qed.

(** X6: the class count never exceeds the number of [.] characters of the
    text; a text without [.] counts no class. *)
Theorem countClasses_le_dots css : (countClasses css <= count_dots css)%nat.
Proof.
  unfold countClasses. etransitivity; [apply undup_length | apply class_matches_dots].
Qed.

(** ** parseUnit *)

Lemma take_while_prefix p l r :
  forallb p l = true -> (forall c r', r = c :: r' -> p c = false) -> take_while p (l ++ r) = l.
Proof.
  intros Hl Hr. induction l as [|c l IH].
  - destruct r as [|c r']; [reflexivity|]. cbn. rewrite (Hr c r' eq_refl). reflexivity.
  - cbn [forallb] in Hl. apply andb_prop in Hl as [Hc Hl]. cbn. rewrite Hc, IH by exact Hl. reflexivity.
Qed.

Lemma drop_while_prefix p l r :
  forallb p l = true -> (forall c r', r = c :: r' -> p c = false) -> drop_while p (l ++ r) = r.
Proof.
  intros Hl Hr. induction l as [|c l IH].
  - destruct r as [|c r']; [reflexivity|]. cbn. rewrite (Hr c r' eq_refl). reflexivity.
  - cbn [forallb] in Hl. apply andb_prop in Hl as [Hc Hl]. cbn. rewrite Hc, IH by exact Hl. reflexivity.
Qed.

Lemma unitch_not_numch c : is_unitch c = true -> is_numch c = false.
Proof.
  unfold is_unitch, is_numch, is_digit. intro H.
  apply orb_prop in H as [H|H].
  - apply andb_prop in H as [H1 H2]. apply N.leb_le in H1.
    destruct (N.eqb_spec c 46); [subst; lia|].
    rewrite orb_false_r. apply andb_false_iff. right. apply N.leb_gt. lia.
  - apply N.eqb_eq in H. subst. reflexivity.
Qed.

(** X7: when the value reads [pre ++ ds ++ us ++ rest] with no digit or
    dot in [pre], a non-empty run [ds] of digits and dots, a non-empty
    maximal run [us] of [a-z%], parseUnit returns parseFloat of [ds] and
    the unit [us]; the text after the unit is ignored. *)
Theorem parseUnit_split pre ds us rest :
  forallb (fun c => negb (is_numch c)) pre = true ->
  ds <> [] -> forallb is_numch ds = true ->
  us <> [] -> forallb is_unitch us = true ->
  (forall c r, rest = c :: r -> is_unitch c = false) ->
  parseUnit (JStr (pre ++ ds ++ us ++ rest)) = {| number := parse_float ds; unit := us |}.
Proof.
  intros Hpre Hds Hn Hus Hu Hr. unfold parseUnit. cbn [js_String].
  assert (Hm : unit_match (ds ++ us ++ rest) = Some (ds, us)).
  { destruct ds as [|d ds']; [congruence|]. cbn [unit_match app]. unfold unit_match_at.
    rewrite app_comm_cons.
    assert (Hus0 : forall c r, us ++ rest = c :: r -> is_numch c = false).
    { intros c r E. destruct us as [|c0 us']; [congruence|]. injection E as <- _.
      cbn [forallb] in Hu. apply andb_prop in Hu as [Hc _]. apply unitch_not_numch, Hc. }
    rewrite (take_while_prefix _ _ _ Hn Hus0), (drop_while_prefix _ _ _ Hn Hus0).
    rewrite (take_while_prefix _ _ _ Hu Hr). destruct us; [congruence | reflexivity]. }
  revert Hpre. induction pre as [|c pre IH]; intro Hpre; [rewrite app_nil_l, Hm; reflexivity|].
  cbn [forallb] in Hpre. apply andb_prop in Hpre as [Hc Hpre].
  rewrite <- app_comm_cons. cbn [unit_match]. unfold unit_match_at at 1. cbn [take_while].
  apply negb_true_iff in Hc. rewrite Hc. apply IH, Hpre.
Qed.

Lemma parseUnit_split_witness :
  parseUnit (JStr (u "calc(" ++ u "1.5" ++ u "rem" ++ u ")")) =
  {| number := parse_float (u "1.5"); unit := u "rem" |}.
Proof.
  apply parseUnit_split; try discriminate; try (vm_compute; reflexivity).
  intros c r E. injection E as <- _. vm_compute. reflexivity.
Defined.

(** ** Colors *)

Section ColorEdges.
Local Open Scope Z_scope.

Lemma take_while_all_nil p l : forallb p l = true -> take_while p l = l.
Proof.
  induction l as [|c l IH]; intro H; [reflexivity|]. cbn [forallb] in H.
  apply andb_prop in H as [Hc H]. cbn. rewrite Hc, IH by exact H. reflexivity.
Qed.

(** [parseInt(s, 16)] on a text made only of hex digits. *)
Lemma parse_int16_hex (s : jstr) :
  s <> [] -> forallb is_hex s = true ->
  parse_int16 s = if digits_value 16 hex_val s =? 0 then S754_zero false
                  else of_Z (digits_value 16 hex_val s).
Proof.
  intros Hne H. destruct s as [|c r]; [congruence|].
  pose proof H as H0. cbn [forallb] in H0. apply andb_prop in H0 as [Hc Hr].
  destruct (hex_facts c Hc) as [W [P [M _]]].
  unfold parse_int16. cbn [drop_while]. rewrite W. cbv beta iota zeta.
  rewrite P, M. cbv beta iota zeta.
  destruct r as [|x r'].
  - rewrite take_while_all_nil by exact H.
    destruct (digits_value 16 hex_val [c]); reflexivity.
  - cbn [forallb] in Hr. apply andb_prop in Hr as [Hx _].
    destruct (hex_facts x Hx) as [_ [_ [_ [X [Y _]]]]]. rewrite X, Y, andb_false_r.
    cbv iota. rewrite take_while_all_nil by exact H.
    destruct (digits_value 16 hex_val (c :: x :: r')); reflexivity.
Qed.

Lemma digits_value_zeros (k : nat) (s : jstr) :
  digits_value 16 hex_val (repeat 48%N k ++ s) = digits_value 16 hex_val s.
Proof.
  unfold digits_value. rewrite fold_left_app. f_equal.
  induction k as [|k IH]; [reflexivity|]. cbn [repeat fold_left]. exact IH.
Qed.

(** Two colors whose hex texts give the same 32-bit value are adjusted alike. *)
Lemma adjustColor_same_value (h1 h2 : jstr) (amount : num) :
  to_int32 (parse_int16 (remove_first 35 h1)) = to_int32 (parse_int16 (remove_first 35 h2)) ->
  adjustColor h1 amount = adjustColor h2 amount.
Proof. intros E. unfold adjustColor. cbv beta zeta. rewrite E. reflexivity. Qed.

Lemma land_255_range (x : Z) : 0 <= Z.land x 255 <= 255.
Proof.
  replace (Z.land x 255) with (x mod 256)
    by (change 255 with (Z.ones 8); rewrite Z.land_ones by lia; reflexivity).
  pose proof (Z.mod_pos_bound x 256 ltac:(lia)) as B.
  set (m := x mod 256) in *. lia.
Qed.

Lemma byte_cases (P : Z -> Prop) (f : Z -> bool) :
  (forall c, f c = true -> P c) ->
  forallb (fun k => f (Z.of_nat k)) (seq 0 256) = true ->
  forall c, 0 <= c <= 255 -> P c.
Proof.
  intros HP C c Hc. apply HP. rewrite forallb_forall in C.
  specialize (C (Z.to_nat c) ltac:(apply in_seq; lia)). rewrite Z2Nat.id in C by lia. exact C.
Qed.

Lemma channel_zero (c : Z) : 0 <= c <= 255 ->
  clampChannel (fadd (of_Z c) (fmul (fsub (of_Z 255) (of_Z c)) zero)) = Some c.
Proof.
  revert c. apply (byte_cases (fun c => clampChannel (fadd (of_Z c) (fmul (fsub (of_Z 255) (of_Z c)) zero)) = Some c)
    (fun c => match clampChannel (fadd (of_Z c) (fmul (fsub (of_Z 255) (of_Z c)) zero)) with
                                 | Some v => v =? c | None => false end)).
  - intros c. destruct (clampChannel _); [intro H; apply Z.eqb_eq in H; subst; reflexivity | discriminate].
  - vm_compute. reflexivity.
Qed.

Lemma channel_one (c : Z) : 0 <= c <= 255 ->
  clampChannel (fadd (of_Z c) (fmul (fsub (of_Z 255) (of_Z c)) (lit "1"))) = Some 255.
Proof.
  revert c. apply (byte_cases (fun c => clampChannel (fadd (of_Z c) (fmul (fsub (of_Z 255) (of_Z c)) (lit "1"))) = Some 255)
    (fun c => match clampChannel (fadd (of_Z c) (fmul (fsub (of_Z 255) (of_Z c)) (lit "1"))) with
                                 | Some v => v =? 255 | None => false end)).
  - intros c. destruct (clampChannel _); [intro H; apply Z.eqb_eq in H; subst; reflexivity | discriminate].
  - vm_compute. reflexivity.
Qed.

Lemma channel_minus_one (c : Z) : 0 <= c <= 255 ->
  clampChannel (fmul (of_Z c) (fsub (of_Z 1) (fopp (fopp (lit "1"))))) = Some 0.
Proof.
  revert c. apply (byte_cases (fun c => clampChannel (fmul (of_Z c) (fsub (of_Z 1) (fopp (fopp (lit "1"))))) = Some 0)
    (fun c => match clampChannel (fmul (of_Z c) (fsub (of_Z 1) (fopp (fopp (lit "1"))))) with
                                 | Some v => v =? 0 | None => false end)).
  - intros c. destruct (clampChannel _); [intro H; apply Z.eqb_eq in H; subst; reflexivity | discriminate].
  - vm_compute. reflexivity.
Qed.

Lemma hex_char_lower (d : N) : is_hex d = true -> hex_char (hex_val d) = ascii_lower d.
Proof.
  intros H.
  assert (B : (d < 103)%N).
  { unfold is_hex, is_digit in H. repeat rewrite orb_true_iff, ?andb_true_iff, ?N.leb_le in H. lia. }
  assert (C : forallb (fun k => let c := N.of_nat k in
                        implb (is_hex c) (N.eqb (hex_char (hex_val c)) (ascii_lower c))) (seq 0 103) = true)
    by (vm_compute; reflexivity).
  rewrite forallb_forall in C. specialize (C (N.to_nat d) ltac:(apply in_seq; lia)).
  cbv zeta in C. rewrite N2Nat.id, H in C. apply N.eqb_eq, C.
Qed.

(** With amount 0 every channel is kept. *)
Lemma adjustColor_zero_channels (hex : jstr) :
  let v := to_int32 (parse_int16 (remove_first 35 hex)) in
  adjustColor hex zero
  = u "#" ++ ColorSpec.hex2 (Z.land (Z.shiftr v 16) 255) ++ ColorSpec.hex2 (Z.land (Z.shiftr v 8) 255)
    ++ ColorSpec.hex2 (Z.land v 255).
Proof.
  cbv zeta. unfold adjustColor. cbv beta zeta.
  change (fleb zero zero) with true. cbv iota.
  rewrite !channel_zero by apply land_255_range. cbn [shl_channel].
  rewrite hex_digits_packed by apply land_255_range. reflexivity.
Qed.

End ColorEdges.

(** X8: with amount 0, a color [#] followed by six hex digits comes back
    unchanged up to the case of its letters, which become lowercase. *)
Theorem adjustColor_zero (d1 d2 d3 d4 d5 d6 : N) :
  forallb is_hex [d1; d2; d3; d4; d5; d6] = true ->
  adjustColor (u "#" ++ [d1; d2; d3; d4; d5; d6]) zero
  = u "#" ++ map ascii_lower [d1; d2; d3; d4; d5; d6].
Proof.
  intros Hhex. rewrite adjustColor_zero_channels.
  change (remove_first 35 (u "#" ++ [d1; d2; d3; d4; d5; d6])) with [d1; d2; d3; d4; d5; d6].
  rewrite (parse_int16_six _ _ _ _ _ _ Hhex).
  pose proof Hhex as H. cbn [forallb] in H. repeat rewrite andb_true_iff in H.
  destruct H as [H1 [H2 [H3 [H4 [H5 [H6 _]]]]]].
  pose proof (proj2 (proj2 (proj2 (proj2 (proj2 (hex_facts d1 H1)))))) as V1.
  pose proof (proj2 (proj2 (proj2 (proj2 (proj2 (hex_facts d2 H2)))))) as V2.
  pose proof (proj2 (proj2 (proj2 (proj2 (proj2 (hex_facts d3 H3)))))) as V3.
  pose proof (proj2 (proj2 (proj2 (proj2 (proj2 (hex_facts d4 H4)))))) as V4.
  pose proof (proj2 (proj2 (proj2 (proj2 (proj2 (hex_facts d5 H5)))))) as V5.
  pose proof (proj2 (proj2 (proj2 (proj2 (proj2 (hex_facts d6 H6)))))) as V6.
  change (digits_value 16 hex_val [d1; d2; d3; d4; d5; d6])
    with ((((((0 * 16 + hex_val d1) * 16 + hex_val d2) * 16 + hex_val d3) * 16 + hex_val d4)
            * 16 + hex_val d5) * 16 + hex_val d6)%Z.
  rewrite to_int32_decoded by lia.
  pose proof (channels_of_six _ _ _ _ _ _ V1 V2 V3 V4 V5 V6) as C. cbv zeta in C.
  destruct C as [C1 [C2 C3]]. rewrite C1, C2, C3.
  unfold ColorSpec.hex2.
  assert (D : forall h l, (0 <= h < 16)%Z -> (0 <= l < 16)%Z ->
                ((16 * h + l) / 16 = h /\ (16 * h + l) mod 16 = l)%Z)
    by (intros; split; Z.div_mod_to_equations; lia).
  destruct (D _ _ V1 V2) as [-> ->]. destruct (D _ _ V3 V4) as [-> ->].
  destruct (D _ _ V5 V6) as [-> ->].
  rewrite !hex_char_lower by assumption. reflexivity.
Qed.

(** X9: for every input text, amount 1 gives white [#ffffff] and amount
    -1 gives black [#000000]. *)
Theorem adjustColor_extremes (hex : jstr) :
  adjustColor hex (lit "1") = u "#ffffff" /\ adjustColor hex (fopp (lit "1")) = u "#000000".
Proof.
  split; unfold adjustColor; cbv beta zeta.
  - change (fleb zero (lit "1")) with true. cbv iota.
    rewrite !channel_one by apply land_255_range. vm_compute. reflexivity.
  - change (fleb zero (fopp (lit "1"))) with false. cbv iota.
    rewrite !channel_minus_one by apply land_255_range. vm_compute. reflexivity.
Qed.

(** X10: a color whose character after [#] is not a hex digit, a sign or
    whitespace is adjusted as black [#000000]. *)
Theorem adjustColor_not_hex (c : N) (r : jstr) (amount : num) :
  is_hex c = false -> is_ws c = false -> c <> 43%N -> c <> 45%N ->
  adjustColor (u "#" ++ c :: r) amount = adjustColor (u "#000000") amount.
Proof.
  intros Hh Hw H43 H45. apply adjustColor_same_value.
  change (remove_first 35 (u "#" ++ c :: r)) with (c :: r).
  replace (to_int32 (parse_int16 (remove_first 35 (u "#000000")))) with 0%Z
    by (vm_compute; reflexivity).
  unfold parse_int16. cbn [drop_while]. rewrite Hw. cbv beta iota zeta.
  rewrite (proj2 (N.eqb_neq c 43) H43), (proj2 (N.eqb_neq c 45) H45). cbv iota zeta.
  replace (N.eqb c 48) with false
    by (symmetry; apply N.eqb_neq; intros ->; discriminate).
  destruct r as [|x r']; cbn [andb]; cbn [take_while]; rewrite Hh; reflexivity.
Qed.

(** X11: a short hex color is read as a number, not expanded: adding
    leading zeros does not change the result, so [#abc] is adjusted as
    [#000abc] and not as [#aabbcc]. *)
Theorem adjustColor_leading_zeros (ds : jstr) (k : nat) (amount : num) :
  ds <> [] -> forallb is_hex ds = true ->
  adjustColor (u "#" ++ ds) amount = adjustColor (u "#" ++ repeat 48%N k ++ ds) amount.
Proof.
  intros Hne H. apply adjustColor_same_value.
  change (remove_first 35 (u "#" ++ ds)) with ds.
  change (remove_first 35 (u "#" ++ repeat 48%N k ++ ds)) with (repeat 48%N k ++ ds).
  rewrite (parse_int16_hex ds Hne H), parse_int16_hex.
  - rewrite digits_value_zeros. reflexivity.
  - destruct k; [exact Hne | discriminate].
  - rewrite forallb_app, H, andb_true_r. induction k; [reflexivity | exact IHk].
Qed.

Lemma adjustColor_leading_zeros_witness :
  adjustColor (u "#" ++ u "AbC") (lit "0.2") = adjustColor (u "#" ++ repeat 48%N 3 ++ u "AbC") (lit "0.2").
Proof. apply adjustColor_leading_zeros; [discriminate | vm_compute; reflexivity]. Defined.

Lemma adjustColor_not_hex_witness :
  adjustColor (u "#" ++ ch "g" :: u "12345") (lit "0.3") = adjustColor (u "#000000") (lit "0.3").
Proof. apply adjustColor_not_hex; [reflexivity | reflexivity | discriminate | discriminate]. Defined.

Lemma adjustColor_zero_witness :
  adjustColor (u "#" ++ [ch "3"; ch "B"; ch "8"; ch "2"; ch "F"; ch "6"]) zero
  = u "#" ++ map ascii_lower [ch "3"; ch "B"; ch "8"; ch "2"; ch "F"; ch "6"].
Proof. apply adjustColor_zero. vm_compute. reflexivity. Defined.

Lemma hex_char_lower_hex (d : Z) : (0 <= d < 16)%Z -> is_lower_hex (hex_char d) = true.
Proof.
  intros H. assert (E : (d = 0 \/ d = 1 \/ d = 2 \/ d = 3 \/ d = 4 \/ d = 5 \/ d = 6 \/ d = 7
    \/ d = 8 \/ d = 9 \/ d = 10 \/ d = 11 \/ d = 12 \/ d = 13 \/ d = 14 \/ d = 15)%Z) by lia.
  repeat destruct E as [->|E]; try reflexivity; subst; reflexivity.
Qed.

(** X12: for every input text and every amount in [[-1, 1]], the result is
    [#] followed by exactly six lowercase hex digits. *)
Theorem adjustColor_shape (hex : jstr) (amount : num) :
  valid_binary prec emax amount = true ->
  fleb (fopp (lit "1")) amount = true -> fleb amount (lit "1") = true ->
  exists h, adjustColor hex amount = u "#" ++ h /\ List.length h = 6%nat
            /\ forallb is_lower_hex h = true.
Proof.
  intros Hv Hlo Hhi. unfold adjustColor. cbv beta zeta.
  rewrite !adjust_channel by (assumption || apply land_255_range). cbv iota. cbn [shl_channel].
  rewrite hex_digits_packed by apply round_clamp_range.
  eexists. split; [reflexivity|]. split; [reflexivity|].
  assert (L1 : forall x, is_lower_hex (hex_char (ColorSpec.round_clamp x / 16)) = true).
  { intros x. pose proof (round_clamp_range x). apply hex_char_lower_hex. Z.div_mod_to_equations; lia. }
  assert (L2 : forall x, is_lower_hex (hex_char (ColorSpec.round_clamp x mod 16)) = true).
  { intros x. apply hex_char_lower_hex. apply Z.mod_pos_bound. lia. }
  unfold ColorSpec.hex2. cbn [skipn app forallb]. rewrite !L1, !L2. reflexivity.
Qed.

Lemma adjustColor_shape_witness :
  valid_binary prec emax (fopp (lit "0.4")) = true
  /\ fleb (fopp (lit "1")) (fopp (lit "0.4")) = true /\ fleb (fopp (lit "0.4")) (lit "1") = true
  /\ exists h, adjustColor (u "#fff") (fopp (lit "0.4")) = u "#" ++ h /\ List.length h = 6%nat
               /\ forallb is_lower_hex h = true.
Proof.
  assert (H1 : valid_binary prec emax (fopp (lit "0.4")) = true) by (vm_compute; reflexivity).
  assert (H2 : fleb (fopp (lit "1")) (fopp (lit "0.4")) = true) by (vm_compute; reflexivity).
  assert (H3 : fleb (fopp (lit "0.4")) (lit "1") = true) by (vm_compute; reflexivity).
  split; [exact H1|]. split; [exact H2|]. split; [exact H3|].
  exact (adjustColor_shape (u "#fff") _ H1 H2 H3).
Defined.

Lemma fmul_nan_r (x : num) : fmul x S754_nan = S754_nan.
Proof. destruct x as [s|s| |s m e]; reflexivity. Qed.

(** X13: with a NaN amount the result is the text [#aN], whatever the
    color. *)
Theorem adjustColor_nan (hex : jstr) : adjustColor hex S754_nan = u "#aN".
Proof.
  unfold adjustColor. cbv beta zeta. change (fleb zero S754_nan) with false. cbv iota.
  change (fsub (of_Z 1) (fopp S754_nan)) with S754_nan. rewrite fmul_nan_r. reflexivity.
Qed.

(** ** The build *)

(** X15: a failed write stops the build. The error is logged, the exit is a
    failure, and no completion message or report follows; files other than
    the two outputs are untouched. When the readable file fails, the
    minified file is never written: it keeps its old content, and the
    readable file keeps its old content if the open failed, or holds what
    reached it of the new text otherwise. When only the minified file
    fails, the readable file already holds the whole autoprefixed text. *)
Theorem build_write_failure (config : Config) (w : World) :
  let css := applyAutoprefix (generateCss config) in
  let failed := console w ++ [Error (u "Failed to build Plugo CSS")] in
  (write_result w cssPath <> WriteOk ->
     files (fst (build config w)) cssPath
     = match write_result w cssPath with
       | WriteFailed kept => Some (kept css)
       | _ => files w cssPath
       end
     /\ files (fst (build config w)) minPath = files w minPath
     /\ (forall q, q <> cssPath -> q <> minPath -> files (fst (build config w)) q = files w q)
     /\ console (fst (build config w)) = failed
     /\ snd (build config w) = ExitFail)
  /\ (write_result w cssPath = WriteOk -> write_result w minPath <> WriteOk ->
     files (fst (build config w)) cssPath = Some css
     /\ files (fst (build config w)) minPath
        = match write_result w minPath with
          | WriteFailed kept => Some (kept (minifyCSS css))
          | _ => files w minPath
          end
     /\ (forall q, q <> cssPath -> q <> minPath -> files (fst (build config w)) q = files w q)
     /\ console (fst (build config w)) = failed
     /\ snd (build config w) = ExitFail).
Proof.
  cbv zeta.
  assert (Ecm : jstr_eqb cssPath minPath = false) by reflexivity.
  assert (Emc : jstr_eqb minPath cssPath = false) by reflexivity.
  assert (Ecc : jstr_eqb cssPath cssPath = true) by reflexivity.
  assert (Emm : jstr_eqb minPath minPath = true) by reflexivity.
  assert (Hq : forall q p, q <> p -> jstr_eqb q p = false).
  { intros q p H. destruct (jstr_eqb q p) eqn:E; [|reflexivity].
    exfalso. apply H, jstr_eqb_eq, E. }
  split.
  - intros Hc. unfold build. cbv zeta. unfold writeFile.
    destruct (write_result w cssPath) as [| |kept]; [congruence| |];
      cbn [fst snd files log console store]; rewrite ?Ecc, ?Emc.
    all: repeat split; try reflexivity; intros q H1 H2; rewrite ?(Hq q cssPath H1); reflexivity.
  - intros Hc Hm. unfold build. cbv zeta. unfold writeFile. rewrite Hc.
    cbn [write_result store].
    destruct (write_result w minPath) as [| |kept]; [congruence| |];
      cbn [fst snd files log console store]; rewrite ?Ecc, ?Emc, ?Ecm, ?Emm.
    all: repeat split; try reflexivity; intros q H1 H2;
      rewrite ?(Hq q minPath H2), ?(Hq q cssPath H1); reflexivity.
Qed.

(** A disk that fills up while the readable file is written (ten characters
    reach it), and one where the minified file cannot be opened. *)
Lemma build_write_failure_witness :
  let w1 := {| files := fun _ => None; console := [];
               write_result := fun p => if jstr_eqb p cssPath
                                         then WriteFailed (firstn 10) else WriteOk |} in
  let w2 := {| files := fun _ => None; console := [];
               write_result := fun p => if jstr_eqb p minPath then OpenFailed else WriteOk |} in
  write_result w1 cssPath <> WriteOk
  /\ files (fst (build Examples.config0 w1)) cssPath = Some (u "/*\n  Plugo")
  /\ write_result w2 cssPath = WriteOk /\ write_result w2 minPath <> WriteOk
  /\ files (fst (build Examples.config0 w2)) minPath = None.
Proof.
  cbv zeta.
  assert (H1 : (if jstr_eqb cssPath cssPath then WriteFailed (firstn 10) else WriteOk) <> WriteOk)
    by (vm_compute; discriminate).
  assert (H2 : (if jstr_eqb cssPath minPath then OpenFailed else WriteOk) = WriteOk)
    by (vm_compute; reflexivity).
  assert (H3 : (if jstr_eqb minPath minPath then OpenFailed else WriteOk) <> WriteOk)
    by (vm_compute; discriminate).
  split; [exact H1|]. split.
  - rewrite (proj1 (proj1 (build_write_failure Examples.config0
      {| files := fun _ => None; console := [];
         write_result := fun p => if jstr_eqb p cssPath
                                   then WriteFailed (firstn 10) else WriteOk |}) H1)).
    vm_compute. reflexivity.
  - split; [exact H2|]. split; [exact H3|].
    rewrite (proj1 (proj2 (proj2 (build_write_failure Examples.config0
      {| files := fun _ => None; console := [];
         write_result := fun p => if jstr_eqb p minPath then OpenFailed else WriteOk |})
      H2 H3))).
    vm_compute. reflexivity.
Defined.

Lemma utf8_length_bounds_n (n : nat) (s : jstr) :
  (List.length s <= n)%nat ->
  (List.length s <= utf8_length s <= 3 * List.length s)%nat
  /\ (forallb (fun c => c <? 128)%N s = true -> utf8_length s = List.length s).
Proof.
  revert s. induction n as [|n IH]; intros s Hl.
  - destruct s; [split; [cbn; lia | reflexivity] | cbn in Hl; lia].
  - destruct s as [|c r]; [split; [cbn; lia | reflexivity]|]. cbn [List.length] in Hl.
    destruct (IH r ltac:(lia)) as [Br Ar].
    cbn [utf8_length forallb List.length].
    destruct (c <? 128)%N eqn:A; [split; [lia | intro H; rewrite Ar; [reflexivity | exact H]]|].
    split; [|discriminate].
    destruct (c <? 2048)%N; [lia|].
    destruct ((55296 <=? c) && (c <=? 56319))%N; [|lia].
    destruct r as [|d r']; [cbn; lia|].
    destruct ((56320 <=? d) && (d <=? 57343))%N; [|lia].
    cbn [List.length] in *. destruct (IH r' ltac:(lia)) as [Br' _]. lia.
Qed.

(** X17: the byte size reported is between the number of UTF-16 code
    units of the text and three times that number, and equal to it for
    ASCII text. *)
Theorem utf8_length_bounds (s : jstr) :
  (List.length s <= utf8_length s <= 3 * List.length s)%nat
  /\ (forallb (fun c => c <? 128)%N s = true -> utf8_length s = List.length s).
Proof. apply (utf8_length_bounds_n (List.length s)), le_n. Qed.

Lemma utf8_length_bounds_witness :
  forallb (fun c => c <? 128)%N (u "Plugo") = true /\ utf8_length (u "Plugo") = List.length (u "Plugo").
Proof.
  assert (H : forallb (fun c => c <? 128)%N (u "Plugo") = true) by (vm_compute; reflexivity).
  split; [exact H | exact (proj2 (utf8_length_bounds (u "Plugo")) H)].
Defined.

(** ** Layout and typography *)

(** X18: with [cols = 0] the layout has no column class: after the
    container and row rules, each breakpoint gives an empty media block. *)
Theorem generateLayout_no_columns (th : Theme) :
  cols (layout th) = 0%N ->
  generateLayout th
  = LayoutSpec.head th ++ u "\n"
    ++ flat_map (fun bp => u "@media (min-width: " ++ snd bp ++ u ") {\n}\n\n") (breakpoints (layout th)).
Proof.
  intros H. rewrite generateLayout_grid. unfold LayoutSpec.grid, LayoutSpec.breakpoint_block.
  rewrite H. reflexivity.
Qed.

Lemma generateLayout_no_columns_witness :
  let th := {| colors := []; typography := Examples.theme0.(typography);
               layout := {| container := u "960px"; cols := 0; breakpoints := [(u "md", u "768px")] |};
               spacing := Examples.theme0.(spacing); transition := Examples.theme0.(transition) |} in
  cols (layout th) = 0%N /\
  generateLayout th
  = LayoutSpec.head th ++ u "\n"
    ++ flat_map (fun bp => u "@media (min-width: " ++ snd bp ++ u ") {\n}\n\n") (breakpoints (layout th)).
Proof. cbv zeta. split; [reflexivity | apply generateLayout_no_columns; reflexivity]. Defined.

(** X19: when [ratioLineHeight] is absent or falsy, the body line height
    is [140%]. *)
Theorem generateTypography_default (th : Theme) :
  truthy (ratioLineHeight (spacing th)) = false ->
  generateTypography th
  = u "body {\n  font-family: " ++ main (typography th)
    ++ u ";\n  line-height: 140%;\n  color: #0f172a;\n}\n\n"
    ++ u "h1, h2, h3, h4, h5, h6 {\n  font-family: " ++ headlines (typography th)
    ++ u ";\n  line-height: 120%;\n  margin-bottom: 0.5em;\n}\n".
Proof.
  intros H. unfold generateTypography, js_or. rewrite H. cbv zeta.
  replace (to_string (fmul (parse_float (js_String (JNum (lit "1.4")))) (lit "100"))) with (u "140")
    by (vm_compute; reflexivity).
  assert (E : u ";\n  line-height: 140%;\n  color: #0f172a;\n}\n\n"
              = u ";\n  line-height: " ++ u "140" ++ u "%;\n  color: #0f172a;\n}\n\n")
    by (vm_compute; reflexivity).
  rewrite E.
  rewrite <- !app_assoc. reflexivity.
Qed.

Lemma generateTypography_default_witness :
  let th := {| colors := []; typography := Examples.theme0.(typography);
               layout := Examples.theme0.(layout);
               spacing := {| baseUnit := JStr (u "16px"); ratioLineHeight := JUndefined |};
               transition := Examples.theme0.(transition) |} in
  truthy (ratioLineHeight (spacing th)) = false /\
  generateTypography th
  = u "body {\n  font-family: " ++ main (typography th)
    ++ u ";\n  line-height: 140%;\n  color: #0f172a;\n}\n\n"
    ++ u "h1, h2, h3, h4, h5, h6 {\n  font-family: " ++ headlines (typography th)
    ++ u ";\n  line-height: 120%;\n  margin-bottom: 0.5em;\n}\n".
Proof. cbv zeta. split; [reflexivity | apply generateTypography_default; reflexivity]. Defined.
